(** * AlphaAngles: the runout evaluation of [alphas.py]

    A shallow embedding of the script [src/alphas.py]: argument
    extraction, the precomputed coordinate rasters, the per-trigger
    reachability test and the accumulation of the runout mask.

    Numbers.  The test of lines 158 to 173 is embedded twice.

    - In the arithmetic of the band (the definitions named [g_...]): the
      drop of line 166, its clipping and its square are computed in the
      data type of the DEM's band, which wraps around for the integer
      types; line 173 casts to float64 and divides.  The float64
      operations of lines 161 to 163, the threshold of line 119 and the
      projection are parameters of the evaluation.  [main] runs this
      evaluation.
    - Over a band of finite floats in exact arithmetic (the definitions
      without prefix): finite values are real numbers, the division has
      its IEEE results at a zero divisor, and the comparison follows
      IEEE.  This is the first embedding at a float band whose operations
      neither round nor overflow ([exact_band_agrees]).  What is stated
      on it concerns the accumulation of the mask, its shape, the order
      of the thresholds and the zero divisor.

    Collaborators.  [rasterio], [pyproj], [geojson], [numpy] and the
    shell tools are called by the script; what they return is data of the
    model: a record for the opened DEM, a function for the projection, a
    [world] for the file system and the numerical library.  [int()] is
    that of CPython 3.11 with the decimal digits of Unicode 14. *)

From Stdlib Require Import Reals Lra ZArith String Ascii.
From Stdlib Require Import Decimal DecimalString DecimalNat.
From stdpp Require Import base decidable option list.

Open Scope R_scope.

(** ** Numbers *)

#[global] Instance Rlt_decision : RelDecision Rlt := Rlt_dec.
#[global] Instance Req_decision : EqDecision R := Req_dec_T.

(** The result of a float division: a finite value, an infinity, or NaN. *)
Inductive quotient : Type :=
  | Finite (x : R)
  | PosInf
  | NegInf
  | NaN.

(** [n / d] on finite floats: at [d = 0] the sign of [n] gives the
    infinity, and [0 / 0] is NaN (numpy warns and goes on). *)
Definition fdiv (n d : R) : quotient :=
  if decide (d = 0) then
    if decide (0 < n) then PosInf
    else if decide (n < 0) then NegInf
    else NaN
  else Finite (n / d).

(** [q > t] for a finite [t]: every comparison with NaN is False. *)
Definition fgt (q : quotient) (t : R) : bool :=
  match q with
  | Finite x => bool_decide (t < x)
  | PosInf => true
  | NegInf => false
  | NaN => false
  end.

(** [v[v < 0] = 0] on one element. *)
Definition clip_neg (v : R) : R := if decide (v < 0) then 0 else v.

(** ** Rasters: two-dimensional numpy arrays, row major *)

Abbreviation raster A := (list (list A)) (only parsing).

Definition mk_raster {A} (h w : nat) (f : nat -> nat -> A) : raster A :=
  (fun r => f r <$> seq 0 w) <$> seq 0 h.

(** [np.full((h, w), v)] *)
Definition full {A} (h w : nat) (v : A) : raster A :=
  replicate h (replicate w v).

(** A scalar broadcast against an array, or a unary ufunc. *)
Definition rmap {A B} (f : A -> B) (m : raster A) : raster B :=
  (fun row : list A => f <$> row) <$> m.

(** An elementwise binary operation on two arrays.  Every array of the
    script has the shape of the DEM, so numpy never has to broadcast or
    to refuse here. *)
Definition rmap2 {A B C} (f : A -> B -> C) (m1 : raster A) (m2 : raster B)
  : raster C :=
  zip_with (zip_with f) m1 m2.

(** [m[r][c]], [None] outside the array. *)
Definition cell {A} (m : raster A) (r c : nat) : option A :=
  m !! r ≫= (.!! c).

(** [np.meshgrid(x, y)] *)
Definition meshgrid {A} (x y : list A) : raster A * raster A :=
  ((fun _ => x) <$> y, (fun yi => (fun _ => yi) <$> x) <$> y).

(** ** A DEM with a band of finite floats, and the projection *)

Record dataset : Type := {
  height : nat;                       (* dem.height *)
  width : nat;                        (* dem.width *)
  band : nat -> nat -> R;             (* dem.read(1)[r][c] *)
  nodata : option R;                  (* dem.nodata *)
  xy : nat -> nat -> R * R;           (* rasterio.transform.xy(dem.transform, r, c) *)
  sample : R * R -> R                 (* next(dem.sample([(x, y)]))[0] *)
}.

(** [Transformer.from_crs(trigger_proj, dem.crs).transform] *)
Definition transformer : Type := R -> R -> R * R.

(** A GeoJSON position, longitude first. *)
Definition coord : Type := (R * R)%type.

(** [dem.read(1)] *)
Definition dem_values (dem : dataset) : raster R :=
  mk_raster (height dem) (width dem) (band dem).

Definition rows_cols (dem : dataset) : raster nat * raster nat :=
  meshgrid (seq 0 (width dem)) (seq 0 (height dem)).

Definition eastings (dem : dataset) : raster R :=
  let '(cols, rows) := rows_cols dem in
  rmap2 (fun r c => fst (xy dem r c)) rows cols.

Definition northings (dem : dataset) : raster R :=
  let '(cols, rows) := rows_cols dem in
  rmap2 (fun r c => snd (xy dem r c)) rows cols.

(** The squared tangent of line 119,
    [np.power(np.tan(runout_angle / 180 * np.pi), 2)], before rounding;
    the float64 value the script computes is the [np_thresh] of its
    surroundings. *)
Definition runout_thresh (runout_angle : Z) : R :=
  tan (IZR runout_angle / 180 * PI) ^ 2.

(** ** The trigger loop over a float band, in exact arithmetic *)

(** The raster [dz / dists] of one trigger, as line 173 divides it, when
    the band holds finite floats and no operation rounds. *)
Definition trigger_quotients (dem : dataset) (tr : transformer)
    (trigger : coord) : raster quotient :=
  let loc := trigger in
  let '(trigger_x, trigger_y) := tr (snd loc) (fst loc) in
  let trigger_elevation := sample dem (trigger_x, trigger_y) in
  let dx := rmap (fun e => e - trigger_x) (eastings dem) in
  let dy := rmap (fun n => n - trigger_y) (northings dem) in
  let dists := rmap2 Rplus (rmap2 Rmult dx dx) (rmap2 Rmult dy dy) in
  let dz := rmap (fun z => trigger_elevation - z) (dem_values dem) in
  let dz := rmap clip_neg dz in
  let dz := rmap2 Rmult dz dz in
  rmap2 fdiv dz dists.

(** The comparison raster [dz / dists > runout_thresh] of one trigger. *)
Definition trigger_mask (dem : dataset) (tr : transformer) (thresh : R)
    (trigger : coord) : raster bool :=
  rmap (fun q => fgt q thresh) (trigger_quotients dem tr trigger).

(** One iteration: [runout_terrain = runout_terrain | (...)]. *)
Definition process_trigger (dem : dataset) (tr : transformer) (thresh : R)
    (runout_terrain : raster bool) (trigger : coord) : raster bool :=
  rmap2 orb runout_terrain (trigger_mask dem tr thresh trigger).

(** The loop over all triggers, from the all-False raster. *)
Definition process_triggers (dem : dataset) (tr : transformer) (thresh : R)
    (triggers : list coord) : raster bool :=
  fold_left (process_trigger dem tr thresh) triggers
            (full (height dem) (width dem) false).

(** The merge of two partial masks by logical OR. *)
Definition mask_or (m1 m2 : raster bool) : raster bool := rmap2 orb m1 m2.

(** ** Pointwise reading of the test *)

(** Where the trigger lands, and the elevation sampled there. *)
Definition project (tr : transformer) (trigger : coord) : R * R :=
  tr (snd trigger) (fst trigger).

Definition trigger_elevation (dem : dataset) (tr : transformer)
    (trigger : coord) : R :=
  sample dem (project tr trigger).

(** The squared planar distance of cell [(r, c)] from the trigger. *)
Definition dist2 (dem : dataset) (tr : transformer) (trigger : coord)
    (r c : nat) : R :=
  (fst (xy dem r c) - fst (project tr trigger)) ^ 2
  + (snd (xy dem r c) - snd (project tr trigger)) ^ 2.

(** The quotient and the test of [trigger] at cell [(r, c)] of the DEM. *)
Definition quotient_at (dem : dataset) (tr : transformer) (trigger : coord)
    (r c : nat) : quotient :=
  fdiv (Rmax (trigger_elevation dem tr trigger - band dem r c) 0 ^ 2)
       (dist2 dem tr trigger r c).

Definition reaches (dem : dataset) (tr : transformer) (thresh : R)
    (trigger : coord) (r c : nat) : bool :=
  fgt (quotient_at dem tr trigger r c) thresh.

(** ** The arithmetic of the band

    Lines 166 to 172 compute in the data type of the band: the sampled
    elevation is a scalar of that type, and the difference
    [trigger_elevation - dem_values], the clipping and the square stay in
    it; the integer types wrap around.  Line 173 divides by the float64
    raster [dists], which casts the band value.  A [dtype] gives these
    operations for one type of band.  The float64 operations of lines
    161 to 163 are those of a [float64] record, a finite float64 value
    being the real number it denotes. *)

Record dtype : Type := {
  elev : Type;                        (* the values of the type *)
  e_sub : elev -> elev -> elev;       (* x - y, in the type *)
  e_neg : elev -> bool;               (* x < 0 *)
  e_zero : elev;                      (* 0, as the type stores it *)
  e_mul : elev -> elev -> elev;       (* x * y, in the type *)
  e_div : elev -> R -> quotient       (* x / d, for a float64 d *)
}.

Record float64 : Type := {
  f_sub : R -> R -> R;
  f_mul : R -> R -> R;
  f_add : R -> R -> R
}.

(** [q > t] on two float64 values: False as soon as one is NaN. *)
Definition qgt (q t : quotient) : bool :=
  match q, t with
  | NaN, _ => false
  | _, NaN => false
  | _, PosInf => false
  | PosInf, _ => true
  | NegInf, _ => false
  | Finite _, NegInf => true
  | Finite x, Finite y => bool_decide (y < x)
  end.

(** Two's complement and unsigned wrap-around on [bits] bits. *)
Definition wrap_signed (bits z : Z) : Z :=
  ((z + 2 ^ (bits - 1)) mod 2 ^ bits - 2 ^ (bits - 1))%Z.

Definition wrap_unsigned (bits z : Z) : Z := (z mod 2 ^ bits)%Z.

(** An [int16] band.  The cast to float64 is exact; the quotient is the
    real one, its rounding to the nearest float64 is left out. *)
Definition int16 : dtype := {|
  elev := Z;
  e_sub := fun x y => wrap_signed 16 (x - y);
  e_neg := fun x => (x <? 0)%Z;
  e_zero := 0%Z;
  e_mul := fun x y => wrap_signed 16 (x * y);
  e_div := fun x d => fdiv (IZR x) d
|}.

(** A [uint16] band. *)
Definition uint16 : dtype := {|
  elev := Z;
  e_sub := fun x y => wrap_unsigned 16 (x - y);
  e_neg := fun x => (x <? 0)%Z;
  e_zero := 0%Z;
  e_mul := fun x y => wrap_unsigned 16 (x * y);
  e_div := fun x d => fdiv (IZR x) d
|}.

(** A float band whose values are rounded by [rnd], the quotient being
    rounded to float64 by [rnd64]; overflow to an infinity is left out. *)
Definition float_band (rnd rnd64 : R -> R) : dtype := {|
  elev := R;
  e_sub := fun x y => rnd (x - y);
  e_neg := fun x => bool_decide (x < 0);
  e_zero := 0;
  e_mul := fun x y => rnd (x * y);
  e_div := fun x d =>
    match fdiv x d with
    | Finite q => Finite (rnd64 q)
    | q => q
    end
|}.

(** A float band whose operations neither round nor overflow. *)
Definition float_exact : dtype := {|
  elev := R;
  e_sub := Rminus;
  e_neg := fun x => bool_decide (x < 0);
  e_zero := 0;
  e_mul := Rmult;
  e_div := fdiv
|}.

(** float64 operations that do not round. *)
Definition exact64 : float64 :=
  {| f_sub := Rminus; f_mul := Rmult; f_add := Rplus |}.

(** The thresholds line 119 can give: the float64 square of a tangent is
    a number that is not negative, or NaN. *)
Definition square_like (t : quotient) : Prop :=
  match t with
  | Finite x => 0 <= x
  | PosInf => True
  | NegInf => False
  | NaN => True
  end.

(** What the band types have in common where no drop is involved: a
    value minus itself is 0, 0 is not negative, 0 times 0 is 0, and 0
    divided by any float is not greater than the square of a tangent. *)
Record lawful (D : dtype) : Prop := {
  sub_self : forall k : elev D, e_sub D k k = e_zero D;
  zero_not_neg : e_neg D (e_zero D) = false;
  mul_zero : e_mul D (e_zero D) (e_zero D) = e_zero D;
  zero_div : forall d t, square_like t -> qgt (e_div D (e_zero D) d) t = false
}.

(** ** The opened DEM, with the data type of its band *)

Record geodata : Type := {
  g_dtype : dtype;                          (* dem.dtypes[0] *)
  g_height : nat;                           (* dem.height *)
  g_width : nat;                            (* dem.width *)
  g_band : nat -> nat -> elev g_dtype;      (* dem.read(1)[r][c] *)
  g_nodata : option (elev g_dtype);         (* dem.nodata, in the type *)
  g_xy : nat -> nat -> R * R;               (* rasterio.transform.xy(dem.transform, r, c) *)
  g_rowcol : R * R -> Z * Z                 (* rasterio.transform.rowcol(dem.transform, x, y) *)
}.

(** The cell that holds the point, when the point is inside the grid. *)
Definition g_index (dem : geodata) (p : R * R) : option (nat * nat) :=
  let '(row, col) := g_rowcol dem p in
  if ((row <? 0) || (col <? 0)
      || (Z.of_nat (g_height dem) <=? row)
      || (Z.of_nat (g_width dem) <=? col))%Z
  then None
  else Some (Z.to_nat row, Z.to_nat col).

(** What rasterio yields outside the grid: [dataset.nodata or 0]. *)
Definition g_fill (dem : geodata) : elev (g_dtype dem) :=
  default (e_zero (g_dtype dem)) (g_nodata dem).

(** [val[0]] for the one [val] of [dem.sample([(x, y)])]: the value of
    the cell that holds the point, or the fill value outside the grid. *)
Definition g_sample (dem : geodata) (p : R * R) : elev (g_dtype dem) :=
  match g_index dem p with
  | Some (r, c) => g_band dem r c
  | None => g_fill dem
  end.

(** [dem.read(1)] *)
Definition g_dem_values (dem : geodata) : raster (elev (g_dtype dem)) :=
  mk_raster (g_height dem) (g_width dem) (g_band dem).

Definition g_rows_cols (dem : geodata) : raster nat * raster nat :=
  meshgrid (seq 0 (g_width dem)) (seq 0 (g_height dem)).

Definition g_eastings (dem : geodata) : raster R :=
  let '(cols, rows) := g_rows_cols dem in
  rmap2 (fun r c => fst (g_xy dem r c)) rows cols.

Definition g_northings (dem : geodata) : raster R :=
  let '(cols, rows) := g_rows_cols dem in
  rmap2 (fun r c => snd (g_xy dem r c)) rows cols.

(** ** The trigger loop in the arithmetic of the band *)

(** Lines 158 to 173 for a trigger projected to [(trigger_x, trigger_y)]:
    the raster [dz / dists]. *)
Definition g_point_quotients (F : float64) (dem : geodata) (p : R * R)
  : raster quotient :=
  let D := g_dtype dem in
  let '(trigger_x, trigger_y) := p in
  let trigger_elevation := g_sample dem (trigger_x, trigger_y) in
  let dx := rmap (fun e => f_sub F e trigger_x) (g_eastings dem) in
  let dy := rmap (fun n => f_sub F n trigger_y) (g_northings dem) in
  let dists :=
    rmap2 (f_add F) (rmap2 (f_mul F) dx dx) (rmap2 (f_mul F) dy dy) in
  let dz := rmap (fun z => e_sub D trigger_elevation z) (g_dem_values dem) in
  let dz := rmap (fun v => if e_neg D v then e_zero D else v) dz in
  let dz := rmap2 (e_mul D) dz dz in
  rmap2 (e_div D) dz dists.

(** The comparison raster [dz / dists > runout_thresh]. *)
Definition g_point_mask (F : float64) (dem : geodata) (thresh : quotient)
    (p : R * R) : raster bool :=
  rmap (fun q => qgt q thresh) (g_point_quotients F dem p).

(** The same from the trigger, line 155 included. *)
Definition g_trigger_quotients (F : float64) (dem : geodata)
    (tr : transformer) (trigger : coord) : raster quotient :=
  let loc := trigger in
  g_point_quotients F dem (tr (snd loc) (fst loc)).

Definition g_trigger_mask (F : float64) (dem : geodata) (tr : transformer)
    (thresh : quotient) (trigger : coord) : raster bool :=
  rmap (fun q => qgt q thresh) (g_trigger_quotients F dem tr trigger).

Definition g_process_trigger (F : float64) (dem : geodata) (tr : transformer)
    (thresh : quotient) (runout_terrain : raster bool) (trigger : coord)
  : raster bool :=
  rmap2 orb runout_terrain (g_trigger_mask F dem tr thresh trigger).

Definition g_process_triggers (F : float64) (dem : geodata)
    (tr : transformer) (thresh : quotient) (triggers : list coord)
  : raster bool :=
  fold_left (g_process_trigger F dem tr thresh) triggers
            (full (g_height dem) (g_width dem) false).

(** The test on scalars: the squared clipped drop from elevation [te] to
    cell [(r, c)], the squared distance of the cell from [p], and the
    test of a trigger that lands on [p] with elevation [te]. *)
Definition g_drop2 (dem : geodata) (te : elev (g_dtype dem)) (r c : nat)
  : elev (g_dtype dem) :=
  let D := g_dtype dem in
  let dz := e_sub D te (g_band dem r c) in
  let dz := if e_neg D dz then e_zero D else dz in
  e_mul D dz dz.

Definition g_dist2 (F : float64) (dem : geodata) (p : R * R) (r c : nat) : R :=
  let dx := f_sub F (fst (g_xy dem r c)) (fst p) in
  let dy := f_sub F (snd (g_xy dem r c)) (snd p) in
  f_add F (f_mul F dx dx) (f_mul F dy dy).

Definition g_test (F : float64) (dem : geodata) (thresh : quotient)
    (p : R * R) (te : elev (g_dtype dem)) (r c : nat) : bool :=
  qgt (e_div (g_dtype dem) (g_drop2 dem te r c) (g_dist2 F dem p r c)) thresh.

Definition g_reaches (F : float64) (dem : geodata) (tr : transformer)
    (thresh : quotient) (trigger : coord) (r c : nat) : bool :=
  g_test F dem thresh (project tr trigger)
         (g_sample dem (project tr trigger)) r c.

(** A trigger that misses the data: it lands outside the grid, or on a
    cell that holds the declared no-data value. *)
Definition off_grid (dem : geodata) (p : R * R) : Prop :=
  g_index dem p = None.

Definition on_nodata (dem : geodata) (p : R * R) : Prop :=
  exists r c, g_index dem p = Some (r, c)
              /\ g_nodata dem = Some (g_band dem r c).

(** A DEM with a band of finite floats in exact arithmetic, and the
    same DEM as a [dataset]; [dem.sample] is that of rasterio. *)
Definition float_dem (h w : nat) (b : nat -> nat -> R) (nd : option R)
    (coords : nat -> nat -> R * R) (rowcol : R * R -> Z * Z) : geodata := {|
  g_dtype := float_exact;
  g_height := h;
  g_width := w;
  g_band := b;
  g_nodata := nd;
  g_xy := coords;
  g_rowcol := rowcol
|}.

Definition as_dataset (h w : nat) (b : nat -> nat -> R) (nd : option R)
    (coords : nat -> nat -> R * R) (rowcol : R * R -> Z * Z) : dataset := {|
  height := h;
  width := w;
  band := b;
  nodata := nd;
  xy := coords;
  sample := g_sample (float_dem h w b nd coords rowcol)
|}.

(** ** Argument extraction *)

(** A Python string: its code points. *)
Definition pystr : Type := list N.

(** A string of ASCII characters as a Python string. *)
Definition text (s : string) : pystr := N_of_ascii <$> list_ascii_of_string s.

(** [args.alpha] is the int [19] of [default=19], or the string given on
    the command line. *)
Inductive pyval : Type :=
  | PyInt (z : Z)
  | PyStr (s : pystr).

(** The command line as argparse reads it: whether it is one argparse
    refuses whatever the required options ([-h], an unknown option, an
    option without its value, a stray argument), and the value of each
    option, [None] for an option not given. *)
Record cmdline : Type := {
  cl_refused : bool;
  opt_dem : option string;
  opt_triggers : option string;
  opt_alpha : option pystr;
  opt_output : option string
}.

(** The namespace [argParser.parse_args()] returns. *)
Record namespace : Type := {
  ns_dem : string;
  ns_triggers : string;
  ns_alpha : pyval;
  ns_output : string
}.

Inductive error : Type :=
  | SystemExit                      (* argparse exits *)
  | ValueError                      (* int() refuses its argument *)
  | ToolNotFound (tool : string)    (* raise Exception("Could not find shell tool ...") *)
  | OpenFailed (path : string)      (* an input file cannot be opened or parsed *)
  | OverflowError                   (* runout_angle / 180 does not fit a float *)
  | CRSError                        (* Transformer.from_crs refuses the CRS of the DEM *)
  | TriggerError (trigger : coord)  (* lines 155 to 158 raise at this trigger *)
  | OSError (path : string).        (* lines 190 to 207 raise *)

Definition parse_args (cl : cmdline) : error + namespace :=
  if cl_refused cl then inl SystemExit
  else
    match opt_dem cl, opt_triggers cl with
    | Some d, Some t =>
        inr {| ns_dem := d;
               ns_triggers := t;
               ns_alpha := default (PyInt 19) (PyStr <$> opt_alpha cl);
               ns_output := default "output.geojson"%string (opt_output cl) |}
    | _, _ => inl SystemExit
    end.

(** The command line with [-a] taken away. *)
Definition without_alpha (cl : cmdline) : cmdline := {|
  cl_refused := cl_refused cl;
  opt_dem := opt_dem cl;
  opt_triggers := opt_triggers cl;
  opt_alpha := None;
  opt_output := opt_output cl
|}.

(** *** [int(s)] in CPython 3.11

    A string that is not pure ASCII is first rewritten: its characters
    from 127 on that are whitespace become a space, those that are
    decimal digits become the ASCII digit, and the first other one
    becomes a question mark that ends the string.  The string is then
    read in base 10: whitespace around, one optional sign, decimal digits
    with single underscores between digits, at most [int_max_str_digits]
    digits. *)

(** [Py_UNICODE_ISSPACE] from 127 on. *)
Definition unicode_space (c : N) : bool :=
  ((c =? 0x85) || (c =? 0xA0) || (c =? 0x1680)
   || ((0x2000 <=? c) && (c <=? 0x200A))
   || (c =? 0x2028) || (c =? 0x2029) || (c =? 0x202F) || (c =? 0x205F)
   || (c =? 0x3000))%N.

(** The digit zero of every run of decimal digits of Unicode 14.0; the
    ten digits of a run are consecutive. *)
Definition decimal_zeros : list N :=
  [48; 1632; 1776; 1984; 2406; 2534; 2662; 2790; 2918; 3046; 3174; 3302;
   3430; 3558; 3664; 3792; 3872; 4160; 4240; 6112; 6160; 6470; 6608; 6784;
   6800; 6992; 7088; 7232; 7248; 42528; 43216; 43264; 43472; 43504; 43600;
   44016; 65296; 66720; 68912; 69734; 69872; 69942; 70096; 70384; 70736;
   70864; 71248; 71360; 71472; 71904; 72016; 72784; 73040; 73120; 92768;
   92864; 93008; 120782; 120792; 120802; 120812; 120822; 123200; 123632;
   125264; 130032]%N.

(** [Py_UNICODE_TODECIMAL] *)
Definition unicode_decimal (c : N) : option N :=
  (fun z => c - z)%N
    <$> List.find (fun z => (z <=? c) && (c <? z + 10))%N decimal_zeros.

(** [_PyUnicode_TransformDecimalAndSpaceToASCII] on a string that is not
    pure ASCII. *)
Fixpoint to_ascii_decimal (s : pystr) : pystr :=
  match s with
  | [] => []
  | c :: s' =>
      if (c <? 127)%N then c :: to_ascii_decimal s'
      else if unicode_space c then 32%N :: to_ascii_decimal s'
      else match unicode_decimal c with
           | Some d => (48 + d)%N :: to_ascii_decimal s'
           | None => [63%N]
           end
  end.

Definition transform_decimal_and_space (s : pystr) : pystr :=
  if forallb (fun c => (c <? 128)%N) s then s else to_ascii_decimal s.

(** [Py_ISSPACE] *)
Definition is_space (c : N) : bool :=
  (((9 <=? c) && (c <=? 13)) || (c =? 32))%N.

Definition digit_val (c : N) : option Z :=
  if ((48 <=? c) && (c <=? 57))%N then Some (Z.of_N (c - 48)) else None.

Fixpoint lstrip (l : pystr) : pystr :=
  match l with
  | c :: l' => if is_space c then lstrip l' else l
  | [] => []
  end.

Definition strip (l : pystr) : pystr :=
  rev (lstrip (rev (lstrip l))).

(** What the digit loop has just read. *)
Inductive prev : Type := Start | Digit | Underscore.

Fixpoint digits (acc : Z) (p : prev) (l : pystr) : option Z :=
  match l with
  | [] => match p with Digit => Some acc | _ => None end
  | c :: l' =>
      match digit_val c with
      | Some v => digits (10 * acc + v) Digit l'
      | None =>
          if (c =? 95)%N then
            match p with Digit => digits acc Underscore l' | _ => None end
          else None
      end
  end.

(** [sys.int_info.default_max_str_digits] *)
Definition int_max_str_digits : Z := 4300.

Definition digit_count (l : pystr) : Z :=
  Z.of_nat (length (List.filter (fun c => bool_decide (is_Some (digit_val c))) l)).

(** The digits after the sign. *)
Definition unsigned_int (l : pystr) : option Z :=
  if (int_max_str_digits <? digit_count l)%Z then None
  else digits 0 Start l.

Definition py_int_str (s : pystr) : option Z :=
  match strip (transform_decimal_and_space s) with
  | c :: l =>
      if (c =? 45)%N then Z.opp <$> unsigned_int l
      else if (c =? 43)%N then unsigned_int l
      else unsigned_int (c :: l)
  | [] => None
  end.

(** [int(v)] *)
Definition py_int (v : pyval) : error + Z :=
  match v with
  | PyInt z => inr z
  | PyStr s => match py_int_str s with Some z => inr z | None => inl ValueError end
  end.




(** ** The trigger file *)

(** The geometry of a GeoJSON feature: a point, or a line of points. *)
Inductive geometry : Type :=
  | Point (coordinates : coord)
  | LineString (coordinates : list coord).

(** [triggers_raw]: a point is wrapped in a list, a line is taken as is. *)
Definition triggers_raw (features : list geometry) : list (list coord) :=
  (fun feature =>
     match feature with
     | Point c => [c]
     | LineString cs => cs
     end) <$> features.

(** [[item for sublist in triggers_raw for item in sublist]] *)
Definition flatten_triggers (features : list geometry) : list coord :=
  concat (triggers_raw features).

(** ** The script *)

(** What the script asks of its surroundings, in order. *)
Inductive event : Type :=
  | Which (tool : string)
  | OpenDem (path : string)
  | LoadTriggers (path : string)
  | ReadBand
  | WriteRunout (ofile : string).

(** [transformer.transform] as the loop meets it: [None] at a point for
    which line 155 or line 158 raises, as [dem.sample] does at the
    infinite coordinates pyproj gives to a point it cannot project. *)
Definition projection : Type := R -> R -> option (R * R).

Record world : Type := {
  which : string -> bool;                            (* shutil.which(tool) is not None *)
  rasterio_open : string -> option geodata;          (* rasterio.open(dem_file) *)
  geojson_load : string -> option (list geometry);   (* geojson.load(open(f))["features"] *)
  np_float64 : float64;                              (* the float64 arithmetic of numpy *)
  np_thresh : Z -> quotient;                         (* np.power(np.tan(z / 180 * np.pi), 2) *)
  from_crs : geodata -> option projection;           (* Transformer.from_crs(4326, dem.crs) *)
  postprocess : string -> bool                       (* lines 190 to 207 go through *)
}.

(** A run: the events so far, and an exception or a value. *)
Definition run (A : Type) : Type := (list event * (error + A))%type.

Definition ret {A} (a : A) : run A := ([], inr a).
Definition raise {A} (e : error) : run A := ([], inl e).
Definition emit (ev : event) : run unit := ([ev], inr tt).
Definition lift {A} (r : error + A) : run A := ([], r).

Definition bind {A B} (m : run A) (k : A -> run B) : run B :=
  match m with
  | (evs, inl e) => (evs, inl e)
  | (evs, inr a) => let '(evs', r) := k a in (evs ++ evs', r)
  end.

#[global] Instance run_bind : MBind run := fun A B k m => bind m k.

Definition gdal_polygonize : string := "gdal_polygonize.py-3.11".
Definition ogr2ogr : string := "ogr2ogr".

Definition check_tool (w : world) (tool : string) : run unit :=
  emit (Which tool) ;;
  if which w tool then ret tt else raise (ToolNotFound tool).

Definition open_dem (w : world) (dem_file : string) : run geodata :=
  emit (OpenDem dem_file) ;;
  match rasterio_open w dem_file with
  | Some dem => ret dem
  | None => raise (OpenFailed dem_file)
  end.

Definition load_triggers (w : world) (trigger_file : string)
  : run (list geometry) :=
  emit (LoadTriggers trigger_file) ;;
  match geojson_load w trigger_file with
  | Some features => ret features
  | None => raise (OpenFailed trigger_file)
  end.

(** [runout_angle / 180] of a Python int raises when the quotient,
    rounded to the nearest float, is beyond the largest float. *)
Definition true_div_overflows (z : Z) : bool :=
  (180 * (2 ^ 1024 - 2 ^ 970) <=? Z.abs z)%Z.

(** Line 119. *)
Definition threshold (w : world) (runout_angle : Z) : run quotient :=
  if true_div_overflows runout_angle then raise OverflowError
  else ret (np_thresh w runout_angle).

(** Line 140. *)
Definition make_transformer (w : world) (dem : geodata) : run projection :=
  match from_crs w dem with
  | Some transformer => ret transformer
  | None => raise CRSError
  end.

(** Lines 147 to 173: the loop, which a trigger without finite projected
    coordinates ends with an exception. *)
Fixpoint g_loop (F : float64) (dem : geodata) (transformer : projection)
    (thresh : quotient) (triggers : list coord) (runout_terrain : raster bool)
  : error + raster bool :=
  match triggers with
  | [] => inr runout_terrain
  | trigger :: triggers' =>
      let loc := trigger in
      match transformer (snd loc) (fst loc) with
      | None => inl (TriggerError trigger)
      | Some p =>
          g_loop F dem transformer thresh triggers'
                 (rmap2 orb runout_terrain (g_point_mask F dem thresh p))
      end
  end.

(** Lines 179 to 207: the mask is written, polygonized and reprojected,
    and the result moved to [ofile]. *)
Definition save (w : world) (ofile : string) : run unit :=
  emit (WriteRunout ofile) ;;
  if postprocess w ofile then ret tt else raise (OSError ofile).

(** The script from the command line to the runout raster it saves. *)
Definition main (w : world) (cl : cmdline) : run (raster bool) :=
  args ← lift (parse_args cl);
  runout_angle ← lift (py_int (ns_alpha args));
  check_tool w gdal_polygonize ;;
  check_tool w ogr2ogr ;;
  dem ← open_dem w (ns_dem args);
  features ← load_triggers w (ns_triggers args);
  let triggers := flatten_triggers features in
  thresh ← threshold w runout_angle;
  emit ReadBand ;;
  transformer ← make_transformer w dem;
  runout_terrain ←
    lift (g_loop (np_float64 w) dem transformer thresh triggers
                 (full (g_height dem) (g_width dem) false));
  save w (ns_output args) ;;
  ret runout_terrain.

(** The same by cases on what the surroundings answer, from the
    extracted arguments on. *)
Definition outcome (w : world) (args : namespace) (runout_angle : Z)
  : run (raster bool) :=
  if negb (which w gdal_polygonize) then
    ([Which gdal_polygonize], inl (ToolNotFound gdal_polygonize))
  else if negb (which w ogr2ogr) then
    ([Which gdal_polygonize; Which ogr2ogr], inl (ToolNotFound ogr2ogr))
  else
    let checked := [Which gdal_polygonize; Which ogr2ogr] in
    match rasterio_open w (ns_dem args) with
    | None => (checked ++ [OpenDem (ns_dem args)], inl (OpenFailed (ns_dem args)))
    | Some dem =>
        let opened := checked ++ [OpenDem (ns_dem args);
                                  LoadTriggers (ns_triggers args)] in
        match geojson_load w (ns_triggers args) with
        | None => (opened, inl (OpenFailed (ns_triggers args)))
        | Some features =>
            if true_div_overflows runout_angle then (opened, inl OverflowError)
            else
              match from_crs w dem with
              | None => (opened ++ [ReadBand], inl CRSError)
              | Some transformer =>
                  match g_loop (np_float64 w) dem transformer
                               (np_thresh w runout_angle)
                               (flatten_triggers features)
                               (full (g_height dem) (g_width dem) false) with
                  | inl e => (opened ++ [ReadBand], inl e)
                  | inr runout_terrain =>
                      (opened ++ [ReadBand; WriteRunout (ns_output args)],
                       if postprocess w (ns_output args)
                       then inr runout_terrain
                       else inl (OSError (ns_output args)))
                  end
              end
        end
    end.

(** ** The loop with its progress messages *)

(** [str(n)] of a non-negative int. *)
Definition py_str (n : nat) : string :=
  NilZero.string_of_uint (Nat.to_uint n).

(** ["Trigger " + str(iter) + " of " + str(n)] *)
Definition progress_message (iter n : nat) : string :=
  ("Trigger " ++ py_str iter ++ " of " ++ py_str n)%string.

(** What the loop carries: the lines printed so far, [iter], and
    [runout_terrain]. *)
Record loop_state : Type := {
  ls_printed : list string;
  ls_iter : nat;
  ls_terrain : raster bool
}.

(** The body of the [for] loop, lines 149 to 173. *)
Definition loop_body (dem : dataset) (tr : transformer) (thresh : R)
    (n : nat) (st : loop_state) (trigger : coord) : loop_state :=
  {| ls_printed := ls_printed st ++ [progress_message (ls_iter st) n];
     ls_iter := ls_iter st + 1;
     ls_terrain := process_trigger dem tr thresh (ls_terrain st) trigger |}.

(** Lines 137 to 173: [iter = 1], [n = len(triggers)], then the loop. *)
Definition trigger_loop (dem : dataset) (tr : transformer) (thresh : R)
    (triggers : list coord) : loop_state :=
  fold_left (loop_body dem tr thresh (length triggers)) triggers
            {| ls_printed := [];
               ls_iter := 1;
               ls_terrain := full (height dem) (width dem) false |}.

(** ** The raster that is written *)

(** [profile['nodata'] = 0] *)
Definition out_nodata : Z := 0.

(** [runout_terrain.astype(rasterio.ubyte)] *)
Definition astype_ubyte (m : raster bool) : raster Z :=
  rmap (fun b : bool => if b then 1%Z else 0%Z) m.

(** ** Sample data

    Small DEMs with cells of 100 by 100 units in one row, cell [(0, c)]
    centred at [(50 + 100 c, 50)], and a projection that leaves the
    coordinates as they are. *)

Definition plain_tr : transformer := fun lat lon => (lon, lat).

Definition row_xy (r c : nat) : R * R := (50 + 100 * INR c, 50 + 100 * INR r).

(** The row and the column of a point on these grids. *)
Definition grid_rowcol (p : R * R) : Z * Z :=
  (Int_part (snd p / 100), Int_part (fst p / 100)).

(** A ridge: 1000 at the first cell, 500 at the second, 0 at the third. *)
Definition ridge_band (r c : nat) : R :=
  match c with O => 1000 | 1%nat => 500 | _ => 0 end.

Definition ridge_dem : dataset :=
  as_dataset 1 3 ridge_band None row_xy grid_rowcol.

(** A trigger on the centre of the first cell, longitude first. *)
Definition summit : coord := (50, 50).

(** A trigger on the centre of the third cell. *)
Definition valley : coord := (250, 50).

(** The ridge with an [int16] band. *)
Definition ridge_int16 : geodata := {|
  g_dtype := int16;
  g_height := 1;
  g_width := 3;
  g_band := fun _ c => match c with O => 1000 | 1%nat => 500 | _ => 0 end%Z;
  g_nodata := None;
  g_xy := row_xy;
  g_rowcol := grid_rowcol
|}.

(** The ridge with a [uint16] band. *)
Definition ridge_uint16 : geodata := {|
  g_dtype := uint16;
  g_height := 1;
  g_width := 3;
  g_band := fun _ c => match c with O => 1000 | 1%nat => 500 | _ => 0 end%Z;
  g_nodata := None;
  g_xy := row_xy;
  g_rowcol := grid_rowcol
|}.

(** The ridge with its float band, in the arithmetic of the band. *)
Definition ridge_float : geodata :=
  float_dem 1 3 ridge_band None row_xy grid_rowcol.

(** A float DEM of two cells whose first cell holds the no-data value
    9999. *)
Definition gap_float : geodata :=
  float_dem 1 2 (fun _ c => match c with O => 9999 | _ => 0 end)
            (Some 9999) row_xy grid_rowcol.

(** A flat float DEM of two cells at elevation 100, no-data value 9999. *)
Definition flat_float : geodata :=
  float_dem 1 2 (fun _ _ => 100) (Some 9999) row_xy grid_rowcol.

(** A flat [uint16] DEM of two cells at elevation 100. *)
Definition flat_uint16 : geodata := {|
  g_dtype := uint16;
  g_height := 1;
  g_width := 2;
  g_band := fun _ _ => 100%Z;
  g_nodata := Some 0%Z;
  g_xy := row_xy;
  g_rowcol := grid_rowcol
|}.

(** A trigger east of the DEMs of two cells. *)
Definition east : coord := (250, 50).

(** A trigger on the centre of the second cell. *)
Definition middle : coord := (150, 50).

(** Surroundings in which both tools exist, both files load, the
    projection leaves the coordinates as they are and the
    post-processing goes through; the threshold is the square of the
    tangent before rounding. *)
Definition ridge_world : world := {|
  which := fun _ => true;
  rasterio_open := fun _ => Some ridge_float;
  geojson_load := fun _ => Some [Point summit];
  np_float64 := exact64;
  np_thresh := fun z => Finite (runout_thresh z);
  from_crs := fun _ => Some (fun lat lon => Some (plain_tr lat lon));
  postprocess := fun _ => true
|}.

(** The same without the tools. *)
Definition bare_world : world := {|
  which := fun _ => false;
  rasterio_open := rasterio_open ridge_world;
  geojson_load := geojson_load ridge_world;
  np_float64 := np_float64 ridge_world;
  np_thresh := np_thresh ridge_world;
  from_crs := from_crs ridge_world;
  postprocess := postprocess ridge_world
|}.

Definition cmd (a : option pystr) : cmdline := {|
  cl_refused := false;
  opt_dem := Some "dem.tif"%string;
  opt_triggers := Some "export.json"%string;
  opt_alpha := a;
  opt_output := None
|}.

(** ** Rasters in canonical form

    Every raster of the script is [mk_raster h w f] for the DEM's [h] and
    [w]; the array operations act on [f]. *)

Lemma zip_with_fmap_fmap {A B C X} (g : A -> B -> C) (f1 : X -> A)
    (f2 : X -> B) (l : list X) :
  zip_with g (f1 <$> l) (f2 <$> l) = (fun x => g (f1 x) (f2 x)) <$> l.
Proof. induction l as [|x l IH]; csimpl; [done | by rewrite IH]. Qed.

Lemma replicate_fmap_seq {A} (x : A) n k :
  replicate n x = (fun _ => x) <$> seq k n.
Proof.
  revert k; induction n as [|n IH]; intros k; csimpl; [done|].
  by rewrite <- IH.
Qed.

Section RasterFacts.
Context {A B C : Type}.

Lemma rmap_mk (g : A -> B) h w (f : nat -> nat -> A) :
  rmap g (mk_raster h w f) = mk_raster h w (fun r c => g (f r c)).
Proof.
  unfold rmap, mk_raster. rewrite <- list_fmap_compose.
  apply list_fmap_ext; intros _ r _; simpl.
  by rewrite <- list_fmap_compose.
Qed.

Lemma rmap2_mk (g : A -> B -> C) h w (f1 : nat -> nat -> A)
    (f2 : nat -> nat -> B) :
  rmap2 g (mk_raster h w f1) (mk_raster h w f2)
  = mk_raster h w (fun r c => g (f1 r c) (f2 r c)).
Proof.
  unfold rmap2, mk_raster. rewrite zip_with_fmap_fmap.
  apply list_fmap_ext; intros _ r _; simpl.
  apply zip_with_fmap_fmap.
Qed.

Lemma full_mk h w (v : A) : full h w v = mk_raster h w (fun _ _ => v).
Proof.
  unfold full, mk_raster.
  rewrite (replicate_fmap_seq _ h 0).
  apply list_fmap_ext; intros _ r _; simpl.
  apply replicate_fmap_seq.
Qed.

Lemma cell_mk h w (f : nat -> nat -> A) r c :
  (r < h)%nat -> (c < w)%nat -> cell (mk_raster h w f) r c = Some (f r c).
Proof.
  intros Hr Hc. unfold cell, mk_raster.
  rewrite list_lookup_fmap.
  assert (seq 0 h !! r = Some r) as -> by (apply lookup_seq; lia).
  simpl. rewrite list_lookup_fmap.
  assert (seq 0 w !! c = Some c) as -> by (apply lookup_seq; lia).
  done.
Qed.

Lemma cell_mk_out h w (f : nat -> nat -> A) r c :
  ¬ ((r < h)%nat ∧ (c < w)%nat) -> cell (mk_raster h w f) r c = None.
Proof.
  intros Hout. unfold cell, mk_raster.
  rewrite list_lookup_fmap.
  destruct (decide (r < h)%nat) as [Hr|Hr].
  - assert (seq 0 h !! r = Some r) as -> by (apply lookup_seq; lia).
    simpl. rewrite list_lookup_fmap.
    assert (seq 0 w !! c = None) as ->; [|done].
    apply lookup_ge_None. rewrite length_seq. lia.
  - assert (seq 0 h !! r = None) as ->; [|done].
    apply lookup_ge_None. rewrite length_seq. lia.
Qed.

Lemma mk_raster_ext h w (f g : nat -> nat -> A) :
  (forall r c, (r < h)%nat -> (c < w)%nat -> f r c = g r c) ->
  mk_raster h w f = mk_raster h w g.
Proof.
  intros Hfg. unfold mk_raster.
  apply list_fmap_ext; intros i r Hi.
  apply lookup_seq in Hi as [-> Hi]. simpl.
  apply list_fmap_ext; intros j c Hj.
  apply lookup_seq in Hj as [-> Hj]. simpl.
  by apply Hfg.
Qed.
End RasterFacts.

(** ** The rasters of the script *)

Lemma rows_cols_mk dem :
  rows_cols dem
  = (mk_raster (height dem) (width dem) (fun _ c => c),
     mk_raster (height dem) (width dem) (fun r _ => r)).
Proof.
  unfold rows_cols, meshgrid, mk_raster. f_equal.
  apply list_fmap_ext; intros _ r _. by rewrite list_fmap_id.
Qed.

Lemma eastings_mk dem :
  eastings dem = mk_raster (height dem) (width dem) (fun r c => fst (xy dem r c)).
Proof.
  unfold eastings. rewrite rows_cols_mk.
  apply (rmap2_mk (fun r c => fst (xy dem r c)) _ _ (fun r _ => r) (fun _ c => c)).
Qed.

Lemma northings_mk dem :
  northings dem = mk_raster (height dem) (width dem) (fun r c => snd (xy dem r c)).
Proof.
  unfold northings. rewrite rows_cols_mk.
  apply (rmap2_mk (fun r c => snd (xy dem r c)) _ _ (fun r _ => r) (fun _ c => c)).
Qed.

Lemma clip_neg_sqr (v : R) : clip_neg v * clip_neg v = Rmax v 0 ^ 2.
Proof.
  unfold clip_neg, Rmax.
  destruct (decide (v < 0)), (Rle_dec v 0); try lra.
  replace v with 0 by lra. lra.
Qed.

Lemma trigger_quotients_mk dem tr t :
  trigger_quotients dem tr t
  = mk_raster (height dem) (width dem) (quotient_at dem tr t).
Proof.
  unfold trigger_quotients, quotient_at, dist2, trigger_elevation, project.
  unfold dem_values.
  destruct (tr t.2 t.1) as [tx ty] eqn:Ht; simpl.
  rewrite eastings_mk, northings_mk.
  rewrite !rmap_mk, !rmap2_mk.
  apply mk_raster_ext; intros r c _ _.
  rewrite clip_neg_sqr. f_equal. lra.
Qed.

Lemma trigger_mask_mk dem tr thresh t :
  trigger_mask dem tr thresh t
  = mk_raster (height dem) (width dem) (reaches dem tr thresh t).
Proof. unfold trigger_mask. by rewrite trigger_quotients_mk, rmap_mk. Qed.

Lemma fold_process_trigger_mk dem tr thresh ts (m : nat -> nat -> bool) :
  fold_left (process_trigger dem tr thresh) ts
            (mk_raster (height dem) (width dem) m)
  = mk_raster (height dem) (width dem)
      (fun r c => m r c || existsb (fun t => reaches dem tr thresh t r c) ts).
Proof.
  revert m; induction ts as [|t ts IH]; intros m; simpl.
  - apply mk_raster_ext; intros. by rewrite orb_false_r.
  - unfold process_trigger at 2. rewrite trigger_mask_mk, rmap2_mk, IH.
    apply mk_raster_ext; intros. by rewrite orb_assoc.
Qed.

Lemma process_triggers_mk dem tr thresh ts :
  process_triggers dem tr thresh ts
  = mk_raster (height dem) (width dem)
      (fun r c => existsb (fun t => reaches dem tr thresh t r c) ts).
Proof.
  unfold process_triggers. rewrite full_mk, fold_process_trigger_mk.
  by apply mk_raster_ext.
Qed.

(** ** Cells of the masks *)

Lemma cell_trigger_quotients dem tr t r c :
  (r < height dem)%nat -> (c < width dem)%nat ->
  cell (trigger_quotients dem tr t) r c = Some (quotient_at dem tr t r c).
Proof. intros Hr Hc. by rewrite trigger_quotients_mk, cell_mk. Qed.

Lemma cell_trigger_mask dem tr thresh t r c :
  (r < height dem)%nat -> (c < width dem)%nat ->
  cell (trigger_mask dem tr thresh t) r c = Some (reaches dem tr thresh t r c).
Proof. intros Hr Hc. by rewrite trigger_mask_mk, cell_mk. Qed.

Lemma cell_process_triggers dem tr thresh ts r c :
  (r < height dem)%nat -> (c < width dem)%nat ->
  cell (process_triggers dem tr thresh ts) r c
  = Some (existsb (fun t => reaches dem tr thresh t r c) ts).
Proof. intros Hr Hc. by rewrite process_triggers_mk, cell_mk. Qed.

Lemma cell_in_range {A} h w (f : nat -> nat -> A) r c v :
  cell (mk_raster h w f) r c = Some v ->
  (r < h)%nat /\ (c < w)%nat /\ v = f r c.
Proof.
  intros Hv. destruct (decide ((r < h)%nat /\ (c < w)%nat)) as [[Hr Hc]|Hout].
  - rewrite cell_mk in Hv by done. by inversion Hv.
  - by rewrite cell_mk_out in Hv.
Qed.

Lemma existsb_elem_of {A} (f : A -> bool) (l : list A) :
  existsb f l = true <-> exists x, x ∈ l /\ f x = true.
Proof.
  rewrite existsb_exists. split; intros (x & Hx & Hf); exists x; split;
    try done; by apply list_elem_of_In.
Qed.

(** ** The test on numbers *)

Lemma fgt_fdiv_nonzero n d t :
  d <> 0 -> fgt (fdiv n d) t = bool_decide (t < n / d).
Proof. intros Hd. unfold fdiv. by rewrite decide_False. Qed.

Lemma fgt_antitone q t1 t2 : t1 <= t2 -> fgt q t2 = true -> fgt q t1 = true.
Proof.
  intros Ht. destruct q; simpl; try done.
  rewrite !bool_decide_eq_true. lra.
Qed.

Lemma runout_thresh_nonneg a : 0 <= runout_thresh a.
Proof. unfold runout_thresh. apply pow2_ge_0. Qed.

Lemma angle_in_quadrant (a : Z) :
  (0 < a < 90)%Z -> 0 < IZR a / 180 * PI < PI / 2.
Proof.
  intros [Ha0 Ha90]. apply IZR_lt in Ha0, Ha90.
  pose proof PI_RGT_0 as Hpi. split.
  - apply Rmult_lt_0_compat; lra.
  - replace (PI / 2) with (90 / 180 * PI) by lra.
    apply Rmult_lt_compat_r; lra.
Qed.

Lemma runout_thresh_mono a1 a2 :
  (0 < a1)%Z -> (a1 < a2)%Z -> (a2 < 90)%Z ->
  runout_thresh a1 < runout_thresh a2.
Proof.
  intros H0 H12 H90. unfold runout_thresh.
  pose proof (angle_in_quadrant a1 ltac:(lia)) as [Hl1 Hu1].
  pose proof (angle_in_quadrant a2 ltac:(lia)) as [Hl2 Hu2].
  pose proof PI_RGT_0 as Hpi.
  assert (IZR a1 / 180 * PI < IZR a2 / 180 * PI) as Hlt.
  { apply Rmult_lt_compat_r; [lra|]. apply IZR_lt in H12. lra. }
  pose proof (tan_gt_0 _ Hl1 Hu1) as Hpos.
  assert (tan (IZR a1 / 180 * PI) < tan (IZR a2 / 180 * PI)) as Htan.
  { apply tan_increasing; lra. }
  nra.
Qed.

Lemma runout_thresh_lt_1 a : (0 < a < 45)%Z -> runout_thresh a < 1.
Proof.
  intros [H0 H45]. unfold runout_thresh.
  pose proof (angle_in_quadrant a ltac:(lia)) as [Hl Hu].
  pose proof PI_RGT_0 as Hpi.
  pose proof (tan_gt_0 _ Hl Hu) as Hpos.
  assert (tan (IZR a / 180 * PI) < tan (PI / 4)) as Htan.
  { apply tan_increasing; [lra| |lra].
    replace (PI / 4) with (45 / 180 * PI) by lra.
    apply Rmult_lt_compat_r; [lra|]. apply IZR_lt in H45. lra. }
  rewrite tan_PI4 in Htan. nra.
Qed.

(** ** The rasters in the arithmetic of the band *)

Lemma g_rows_cols_mk dem :
  g_rows_cols dem
  = (mk_raster (g_height dem) (g_width dem) (fun _ c => c),
     mk_raster (g_height dem) (g_width dem) (fun r _ => r)).
Proof.
  unfold g_rows_cols, meshgrid, mk_raster. f_equal.
  apply list_fmap_ext; intros _ r _. by rewrite list_fmap_id.
Qed.

Lemma g_eastings_mk dem :
  g_eastings dem
  = mk_raster (g_height dem) (g_width dem) (fun r c => fst (g_xy dem r c)).
Proof.
  unfold g_eastings. rewrite g_rows_cols_mk.
  apply (rmap2_mk (fun r c => fst (g_xy dem r c)) _ _
                  (fun r _ => r) (fun _ c => c)).
Qed.

Lemma g_northings_mk dem :
  g_northings dem
  = mk_raster (g_height dem) (g_width dem) (fun r c => snd (g_xy dem r c)).
Proof.
  unfold g_northings. rewrite g_rows_cols_mk.
  apply (rmap2_mk (fun r c => snd (g_xy dem r c)) _ _
                  (fun r _ => r) (fun _ c => c)).
Qed.

Lemma g_point_quotients_mk F dem p :
  g_point_quotients F dem p
  = mk_raster (g_height dem) (g_width dem)
      (fun r c => e_div (g_dtype dem) (g_drop2 dem (g_sample dem p) r c)
                        (g_dist2 F dem p r c)).
Proof.
  unfold g_point_quotients, g_drop2, g_dist2, g_dem_values.
  destruct p as [tx ty]; simpl.
  rewrite g_eastings_mk, g_northings_mk.
  by rewrite !rmap_mk, !rmap2_mk.
Qed.

Lemma g_point_mask_mk F dem thresh p :
  g_point_mask F dem thresh p
  = mk_raster (g_height dem) (g_width dem)
      (g_test F dem thresh p (g_sample dem p)).
Proof. unfold g_point_mask. by rewrite g_point_quotients_mk, rmap_mk. Qed.

Lemma g_trigger_mask_point F dem tr thresh t :
  g_trigger_mask F dem tr thresh t = g_point_mask F dem thresh (project tr t).
Proof. done. Qed.

Lemma g_trigger_mask_mk F dem tr thresh t :
  g_trigger_mask F dem tr thresh t
  = mk_raster (g_height dem) (g_width dem) (g_reaches F dem tr thresh t).
Proof. rewrite g_trigger_mask_point. apply g_point_mask_mk. Qed.

Lemma g_fold_process_trigger_mk F dem tr thresh ts (m : nat -> nat -> bool) :
  fold_left (g_process_trigger F dem tr thresh) ts
            (mk_raster (g_height dem) (g_width dem) m)
  = mk_raster (g_height dem) (g_width dem)
      (fun r c => m r c || existsb (fun t => g_reaches F dem tr thresh t r c) ts).
Proof.
  revert m; induction ts as [|t ts IH]; intros m; simpl.
  - apply mk_raster_ext; intros. by rewrite orb_false_r.
  - unfold g_process_trigger at 2. rewrite g_trigger_mask_mk, rmap2_mk, IH.
    apply mk_raster_ext; intros. by rewrite orb_assoc.
Qed.

Lemma g_process_triggers_mk F dem tr thresh ts :
  g_process_triggers F dem tr thresh ts
  = mk_raster (g_height dem) (g_width dem)
      (fun r c => existsb (fun t => g_reaches F dem tr thresh t r c) ts).
Proof.
  unfold g_process_triggers. rewrite full_mk, g_fold_process_trigger_mk.
  by apply mk_raster_ext.
Qed.

Lemma cell_g_trigger_mask F dem tr thresh t r c :
  (r < g_height dem)%nat -> (c < g_width dem)%nat ->
  cell (g_trigger_mask F dem tr thresh t) r c
  = Some (g_reaches F dem tr thresh t r c).
Proof. intros Hr Hc. by rewrite g_trigger_mask_mk, cell_mk. Qed.

Lemma cell_g_process_triggers F dem tr thresh ts r c :
  (r < g_height dem)%nat -> (c < g_width dem)%nat ->
  cell (g_process_triggers F dem tr thresh ts) r c
  = Some (existsb (fun t => g_reaches F dem tr thresh t r c) ts).
Proof. intros Hr Hc. by rewrite g_process_triggers_mk, cell_mk. Qed.

(** The loop with a projection that is finite at every trigger. *)
Lemma g_loop_finite F dem (pr : projection) (tr : transformer) thresh ts m :
  (forall t, t ∈ ts -> pr (snd t) (fst t) = Some (tr (snd t) (fst t))) ->
  g_loop F dem pr thresh ts m
  = inr (fold_left (g_process_trigger F dem tr thresh) ts m).
Proof.
  revert m; induction ts as [|t ts IH]; intros m Hpr; simpl; [done|].
  rewrite (Hpr t) by (by apply elem_of_cons; left).
  rewrite IH by (intros t' Ht'; apply Hpr; by apply elem_of_cons; right).
  done.
Qed.

(** Whether the loop raises, and what, depends neither on the threshold
    nor on the mask it starts from. *)
Lemma g_loop_error F dem pr th1 th2 ts m1 m2 e :
  g_loop F dem pr th1 ts m1 = inl e -> g_loop F dem pr th2 ts m2 = inl e.
Proof.
  revert m1 m2; induction ts as [|t ts IH]; intros m1 m2; simpl; [done|].
  destruct (pr t.2 t.1) as [p|]; [apply IH | done].
Qed.

(** ** The band types *)

Lemma qgt_zero_quotient d t : square_like t -> qgt (fdiv 0 d) t = false.
Proof.
  intros Ht. unfold fdiv. destruct (decide (d = 0)) as [->|Hd].
  - rewrite !decide_False by lra. done.
  - unfold Rdiv. rewrite Rmult_0_l. destruct t; simpl in *; try done.
    apply bool_decide_eq_false_2. lra.
Qed.

Lemma int16_lawful : lawful int16.
Proof.
  split; simpl.
  - intros k. by rewrite Z.sub_diag.
  - done.
  - done.
  - apply qgt_zero_quotient.
Qed.

Lemma uint16_lawful : lawful uint16.
Proof.
  split; simpl.
  - intros k. by rewrite Z.sub_diag.
  - done.
  - done.
  - apply qgt_zero_quotient.
Qed.

Lemma float_exact_lawful : lawful float_exact.
Proof.
  split; simpl.
  - intros k. lra.
  - apply bool_decide_eq_false_2. lra.
  - lra.
  - apply qgt_zero_quotient.
Qed.

Lemma float_band_lawful rnd rnd64 :
  rnd 0 = 0 -> rnd64 0 = 0 -> lawful (float_band rnd rnd64).
Proof.
  intros Hr Hr64. split; simpl.
  - intros k. by rewrite Rminus_diag.
  - apply bool_decide_eq_false_2. lra.
  - by rewrite Rmult_0_l.
  - intros d t Ht. pose proof (qgt_zero_quotient d t Ht) as Hq.
    unfold fdiv in *. destruct (decide (d = 0)) as [->|Hd].
    + by rewrite !decide_False in * by lra.
    + unfold Rdiv in *. rewrite Rmult_0_l in *. by rewrite Hr64.
Qed.

(** The test of a trigger at the elevation of the cell fails. *)
Lemma g_test_level F dem thresh p r c :
  lawful (g_dtype dem) -> square_like thresh ->
  g_test F dem thresh p (g_band dem r c) r c = false.
Proof.
  intros HD Ht. unfold g_test, g_drop2.
  rewrite (sub_self _ HD), (zero_not_neg _ HD), (mul_zero _ HD).
  by apply (zero_div _ HD).
Qed.

(** ** Sampling *)

Lemma g_index_in_grid dem p r c :
  g_index dem p = Some (r, c) -> (r < g_height dem)%nat /\ (c < g_width dem)%nat.
Proof.
  unfold g_index. destruct (g_rowcol dem p) as [row col].
  destruct (_ || _ || _ || _)%bool eqn:Hout; [done|].
  intros [= <- <-].
  apply orb_false_elim in Hout as [Hout Hw].
  apply orb_false_elim in Hout as [Hout Hh].
  apply orb_false_elim in Hout as [Hr Hc].
  apply Z.ltb_ge in Hr, Hc. apply Z.leb_gt in Hh, Hw. lia.
Qed.

Lemma g_sample_in_grid dem p r c :
  g_index dem p = Some (r, c) -> g_sample dem p = g_band dem r c.
Proof. intros Hp. unfold g_sample. by rewrite Hp. Qed.

Lemma g_sample_off_grid dem p : off_grid dem p -> g_sample dem p = g_fill dem.
Proof. intros Hp. unfold g_sample. by rewrite Hp. Qed.

Lemma g_sample_on_nodata dem p : on_nodata dem p -> g_sample dem p = g_fill dem.
Proof.
  intros (r & c & Hp & Hnd). rewrite (g_sample_in_grid _ _ _ _ Hp).
  unfold g_fill. by rewrite Hnd.
Qed.

Lemma grid_rowcol_at (x y : R) (row col : Z) :
  IZR row <= y / 100 < IZR row + 1 -> IZR col <= x / 100 < IZR col + 1 ->
  grid_rowcol (x, y) = (row, col).
Proof.
  intros Hy Hx. unfold grid_rowcol; simpl.
  f_equal; symmetry; apply Int_part_spec; lra.
Qed.

Lemma g_index_at dem p row col :
  g_rowcol dem p = (row, col) ->
  g_index dem p
  = if ((row <? 0) || (col <? 0)
        || (Z.of_nat (g_height dem) <=? row)
        || (Z.of_nat (g_width dem) <=? col))%Z
    then None
    else Some (Z.to_nat row, Z.to_nat col).
Proof. intros Hp. unfold g_index. by rewrite Hp. Qed.

(** ** The two embeddings of the test *)

Lemma qgt_finite q t : qgt q (Finite t) = fgt q t.
Proof. by destruct q. Qed.

Lemma exact_reaches_agrees h w b nd coords rowcol tr t trigger r c :
  g_reaches exact64 (float_dem h w b nd coords rowcol) tr (Finite t) trigger r c
  = reaches (as_dataset h w b nd coords rowcol) tr t trigger r c.
Proof.
  unfold g_reaches, g_test, reaches, quotient_at, trigger_elevation, dist2.
  rewrite qgt_finite. unfold g_drop2, g_dist2; simpl.
  set (te := g_sample (float_dem h w b nd coords rowcol) (project tr trigger)).
  f_equal. f_equal.
  - unfold Rmax. destruct (Rle_dec (te - b r c) 0) as [Hle|Hgt].
    + destruct (decide (te - b r c < 0)) as [Hlt|Hge].
      * rewrite bool_decide_eq_true_2 by done. lra.
      * rewrite bool_decide_eq_false_2 by done.
        replace (te - b r c) with 0 by lra. lra.
    + rewrite bool_decide_eq_false_2 by lra. lra.
  - lra.
Qed.

Lemma exact_band_agrees h w b nd coords rowcol tr t ts :
  (forall trigger,
      g_trigger_mask exact64 (float_dem h w b nd coords rowcol) tr (Finite t)
                     trigger
      = trigger_mask (as_dataset h w b nd coords rowcol) tr t trigger)
  /\ g_process_triggers exact64 (float_dem h w b nd coords rowcol) tr
                        (Finite t) ts
     = process_triggers (as_dataset h w b nd coords rowcol) tr t ts.
Proof.
  split.
  - intros trigger. rewrite g_trigger_mask_mk, trigger_mask_mk.
    apply mk_raster_ext; intros r c _ _. apply exact_reaches_agrees.
  - rewrite g_process_triggers_mk, process_triggers_mk.
    apply mk_raster_ext; intros r c _ _.
    induction ts as [|t' ts IH]; simpl; [done|].
    by rewrite IH, exact_reaches_agrees.
Qed.

(** ** The script, stage by stage *)

Lemma main_stages w cl :
  main w cl
  = match parse_args cl with
    | inl e => ([], inl e)
    | inr args =>
        match py_int (ns_alpha args) with
        | inl e => ([], inl e)
        | inr z => outcome w args z
        end
    end.
Proof.
  unfold main, outcome.
  destruct (parse_args cl) as [e|args]; cbn; [done|].
  destruct (py_int (ns_alpha args)) as [e|z]; cbn; [done|].
  unfold check_tool.
  destruct (which w gdal_polygonize); cbn; [|done].
  destruct (which w ogr2ogr); cbn; [|done].
  unfold open_dem.
  destruct (rasterio_open w (ns_dem args)) as [dem|]; cbn; [|done].
  unfold load_triggers.
  destruct (geojson_load w (ns_triggers args)) as [features|]; cbn; [|done].
  unfold threshold.
  destruct (true_div_overflows z); cbn; [done|].
  unfold make_transformer.
  destruct (from_crs w dem) as [pr|]; cbn; [|done].
  destruct (g_loop _ _ _ _ _ _) as [e|m]; cbn; [done|].
  unfold save. by destruct (postprocess w (ns_output args)); cbn.
Qed.

(** The outcome at two angles that fit a float: the same events, the
    same exception if any. *)
Lemma outcome_angle w args z1 z2 :
  true_div_overflows z1 = false -> true_div_overflows z2 = false ->
  fst (outcome w args z1) = fst (outcome w args z2)
  /\ (forall e, snd (outcome w args z1) = inl e
                -> snd (outcome w args z2) = inl e).
Proof.
  intros H1 H2. unfold outcome. rewrite H1, H2.
  destruct (which w gdal_polygonize); simpl; [|done].
  destruct (which w ogr2ogr); simpl; [|done].
  destruct (rasterio_open w (ns_dem args)) as [dem|]; [|done].
  destruct (geojson_load w (ns_triggers args)) as [features|]; [|done].
  destruct (from_crs w dem) as [pr|]; [|done].
  destruct (g_loop (np_float64 w) dem pr (np_thresh w z1) _ _)
    as [e1|m1] eqn:Hl1.
  - rewrite (g_loop_error _ _ _ _ (np_thresh w z2) _ _
               (full (g_height dem) (g_width dem) false) _ Hl1). done.
  - destruct (g_loop (np_float64 w) dem pr (np_thresh w z2) _ _)
      as [e2|m2] eqn:Hl2.
    + by rewrite (g_loop_error _ _ _ _ (np_thresh w z1) _ _
                    (full (g_height dem) (g_width dem) false) _ Hl2) in Hl1.
    + simpl. split; [done|]. intros e.
      by destruct (postprocess w (ns_output args)).
Qed.

(** ** The sample data, evaluated *)

Lemma rmax_pos x : 0 <= x -> Rmax x 0 = x.
Proof. intros Hx. rewrite Rmax_left; lra. Qed.

Lemma summit_rowcol : grid_rowcol (project plain_tr summit) = (0, 0)%Z.
Proof. apply grid_rowcol_at; simpl; lra. Qed.

Lemma middle_rowcol : grid_rowcol (project plain_tr middle) = (0, 1)%Z.
Proof. apply grid_rowcol_at; simpl; lra. Qed.

Lemma valley_rowcol : grid_rowcol (project plain_tr valley) = (0, 2)%Z.
Proof. apply grid_rowcol_at; simpl; lra. Qed.

Lemma east_rowcol : grid_rowcol (project plain_tr east) = (0, 2)%Z.
Proof. apply grid_rowcol_at; simpl; lra. Qed.

Lemma ridge_summit_elevation : trigger_elevation ridge_dem plain_tr summit = 1000.
Proof.
  unfold trigger_elevation.
  change (sample ridge_dem) with (g_sample ridge_float).
  unfold g_sample. by rewrite (g_index_at ridge_float _ _ _ summit_rowcol).
Qed.

Lemma ridge_summit_reaches_second a :
  (0 < a < 45)%Z -> reaches ridge_dem plain_tr (runout_thresh a) summit 0 1 = true.
Proof.
  intros Ha. unfold reaches, quotient_at. rewrite ridge_summit_elevation.
  unfold dist2, project, plain_tr, summit; simpl.
  rewrite fgt_fdiv_nonzero by lra.
  apply bool_decide_eq_true_2.
  pose proof (runout_thresh_lt_1 a Ha).
  rewrite rmax_pos by lra.
  apply Rlt_trans with 1; [done|].
  apply Rmult_lt_reg_r with ((50 + 100 * 1 - 50) * ((50 + 100 * 1 - 50) * 1)
                             + (50 + 100 * 0 - 50) * ((50 + 100 * 0 - 50) * 1));
    [lra|].
  unfold Rdiv. rewrite Rmult_assoc, Rinv_l by lra. lra.
Qed.

Lemma ridge_summit_own_cell : dist2 ridge_dem plain_tr summit 0 0 = 0.
Proof. unfold dist2, project, plain_tr, summit; simpl. lra. Qed.

Lemma ridge_summit_quotient_own_cell :
  quotient_at ridge_dem plain_tr summit 0 0 = NaN.
Proof.
  unfold quotient_at. rewrite ridge_summit_elevation, ridge_summit_own_cell.
  simpl. unfold fdiv. rewrite decide_True by done.
  replace (1000 - 1000) with 0 by lra.
  rewrite Rmax_left by lra.
  rewrite !decide_False by lra. done.
Qed.

(** ** The sample DEMs in the arithmetic of their bands *)

Lemma float_test_value h w b nd coords rowcol thresh p te r c :
  g_test exact64 (float_dem h w b nd coords rowcol) thresh p te r c
  = qgt (fdiv (Rmax (te - b r c) 0 ^ 2)
              ((fst (coords r c) - fst p) ^ 2 + (snd (coords r c) - snd p) ^ 2))
        thresh.
Proof.
  unfold g_test, g_drop2, g_dist2; simpl. f_equal. f_equal.
  - unfold Rmax. destruct (Rle_dec (te - b r c) 0) as [Hle|Hgt].
    + destruct (decide (te - b r c < 0)) as [Hlt|Hge].
      * rewrite bool_decide_eq_true_2 by done. lra.
      * rewrite bool_decide_eq_false_2 by done.
        replace (te - b r c) with 0 by lra. lra.
    + rewrite bool_decide_eq_false_2 by lra. lra.
  - lra.
Qed.

Lemma qgt_quotient n d t :
  d <> 0 -> qgt (fdiv n d) (Finite t) = bool_decide (t < n / d).
Proof. intros Hd. unfold fdiv. by rewrite decide_False. Qed.

Lemma ridge_int16_summit :
  g_sample ridge_int16 (project plain_tr summit) = 1000%Z.
Proof.
  unfold g_sample. by rewrite (g_index_at ridge_int16 _ _ _ summit_rowcol).
Qed.

Lemma ridge_uint16_valley :
  g_sample ridge_uint16 (project plain_tr valley) = 0%Z.
Proof.
  unfold g_sample. by rewrite (g_index_at ridge_uint16 _ _ _ valley_rowcol).
Qed.

Lemma ridge_int16_summit_second thresh :
  square_like thresh ->
  g_reaches exact64 ridge_int16 plain_tr thresh summit 0 1 = false.
Proof.
  intros Ht. unfold g_reaches. rewrite ridge_int16_summit.
  unfold g_test.
  assert (g_drop2 ridge_int16 1000%Z 0 1 = (-12144)%Z) as -> by done.
  assert (g_dist2 exact64 ridge_int16 (project plain_tr summit) 0 1 = 10000)
    as -> by (unfold g_dist2; simpl; lra).
  simpl. unfold fdiv. rewrite decide_False by lra.
  destruct thresh as [x| | |]; simpl in *; try done.
  apply bool_decide_eq_false_2. lra.
Qed.

Lemma ridge_uint16_valley_second t :
  t < 5 ->
  g_reaches exact64 ridge_uint16 plain_tr (Finite t) valley 0 1 = true.
Proof.
  intros Ht. unfold g_reaches. rewrite ridge_uint16_valley.
  unfold g_test.
  assert (g_drop2 ridge_uint16 0%Z 0 1 = 53392%Z) as -> by done.
  assert (g_dist2 exact64 ridge_uint16 (project plain_tr valley) 0 1 = 10000)
    as -> by (unfold g_dist2; simpl; lra).
  simpl. rewrite qgt_quotient by lra.
  apply bool_decide_eq_true_2. lra.
Qed.

Lemma gap_summit_on_nodata : on_nodata gap_float (project plain_tr summit).
Proof.
  exists 0%nat, 0%nat.
  by rewrite (g_index_at gap_float _ _ _ summit_rowcol).
Qed.

Lemma gap_east_off_grid : off_grid gap_float (project plain_tr east).
Proof.
  unfold off_grid. by rewrite (g_index_at gap_float _ _ _ east_rowcol).
Qed.

Lemma flat_east_off_grid : off_grid flat_float (project plain_tr east).
Proof.
  unfold off_grid. by rewrite (g_index_at flat_float _ _ _ east_rowcol).
Qed.

Lemma flat_uint16_middle :
  g_index flat_uint16 (project plain_tr middle) = Some (0%nat, 1%nat).
Proof. by rewrite (g_index_at flat_uint16 _ _ _ middle_rowcol). Qed.

(** A trigger sampled at 9999 marks a cell of these DEMs that is 100 or
    200 units away. *)
Lemma nodata_drop_reaches z d a :
  0 <= z <= 100 -> 0 < d <= 40000 -> (0 < a < 45)%Z ->
  qgt (fdiv (Rmax (9999 - z) 0 ^ 2) d) (Finite (runout_thresh a)) = true.
Proof.
  intros Hz Hd Ha. rewrite qgt_quotient by lra.
  apply bool_decide_eq_true_2.
  pose proof (runout_thresh_lt_1 a Ha) as Hthr.
  rewrite rmax_pos by lra.
  apply Rlt_trans with 1; [done|].
  apply (Rmult_lt_reg_r d); [lra|].
  unfold Rdiv. rewrite Rmult_assoc, Rinv_l by lra. nra.
Qed.

Lemma gap_reaches_second trigger :
  g_sample gap_float (project plain_tr trigger) = 9999 ->
  fst trigger = 50 \/ fst trigger = 250 -> snd trigger = 50 ->
  g_reaches exact64 gap_float plain_tr (Finite (runout_thresh 19)) trigger 0 1
  = true.
Proof.
  intros Hte Hx Hy. unfold g_reaches. rewrite Hte.
  unfold gap_float. rewrite float_test_value.
  apply nodata_drop_reaches; [lra| |lia].
  unfold project, plain_tr; simpl. rewrite Hy.
  destruct Hx as [-> | ->]; lra.
Qed.

Lemma flat_east_reaches c :
  (c < 2)%nat ->
  g_reaches exact64 flat_float plain_tr (Finite (runout_thresh 19)) east 0 c
  = true.
Proof.
  intros Hc. unfold g_reaches.
  rewrite (g_sample_off_grid _ _ flat_east_off_grid).
  unfold flat_float. rewrite float_test_value.
  apply nodata_drop_reaches; [simpl; lra| |lia].
  unfold project, plain_tr; simpl.
  destruct c as [|[|c]]; [simpl; lra | simpl; lra | lia].
Qed.

(** ** The claims *)

(** C1.  On the ridge with an [int16] band the script does not compute
    the test of the claim.  The trigger on the first cell is sampled at
    1000 and the second cell, 100 units away, holds 500: the drop 500 is
    squared in [int16], where 250000 wraps around to -12144, so that the
    quotient is negative and the cell of the comparison raster, and of
    the final mask, is False for every threshold that is the square of a
    tangent; the quotient of the claim is 25, above the squared tangent
    of 19 degrees. *)
Theorem C1_int16_square_wraps thresh :
  square_like thresh ->
  g_sample ridge_int16 (project plain_tr summit) = 1000%Z
  /\ g_band ridge_int16 0 1 = 500%Z
  /\ e_sub int16 1000%Z 500%Z = 500%Z
  /\ e_neg int16 500%Z = false
  /\ e_mul int16 500%Z 500%Z = (-12144)%Z
  /\ g_dist2 exact64 ridge_int16 (project plain_tr summit) 0 1 = 10000
  /\ cell (g_trigger_mask exact64 ridge_int16 plain_tr thresh summit) 0 1
     = Some false
  /\ cell (g_process_triggers exact64 ridge_int16 plain_tr thresh [summit]) 0 1
     = Some false
  /\ Rmax (1000 - 500) 0 ^ 2 / ((150 - 50) ^ 2 + (50 - 50) ^ 2)
     > tan (IZR 19 / 180 * PI) ^ 2.
Proof.
  intros Ht.
  split; [apply ridge_int16_summit|]. split; [done|]. split; [done|].
  split; [done|]. split; [done|].
  split; [unfold g_dist2; simpl; lra|].
  split; [|split].
  - rewrite cell_g_trigger_mask by (simpl; lia).
    by rewrite ridge_int16_summit_second.
  - rewrite cell_g_process_triggers by (simpl; lia). simpl.
    by rewrite ridge_int16_summit_second.
  - pose proof (runout_thresh_lt_1 19 ltac:(lia)) as Hthr.
    unfold runout_thresh in Hthr. rewrite rmax_pos by lra.
    apply Rlt_gt. apply Rlt_trans with 1; [done|].
    apply (Rmult_lt_reg_r ((150 - 50) ^ 2 + (50 - 50) ^ 2)); [lra|].
    unfold Rdiv. rewrite Rmult_assoc, Rinv_l by lra. lra.
Qed.

Lemma C1_witness :
  square_like (Finite (runout_thresh 19))
  /\ cell (g_trigger_mask exact64 ridge_int16 plain_tr
             (Finite (runout_thresh 19)) summit) 0 1
     = Some false.
Proof.
  assert (square_like (Finite (runout_thresh 19))) as Ht
    by apply runout_thresh_nonneg.
  split; [done|].
  exact (proj1 (proj2 (proj2 (proj2 (proj2 (proj2 (proj2
    (C1_int16_square_wraps (Finite (runout_thresh 19)) Ht)))))))).
Defined.

(** C2.  The runout mask is all False at creation; processing one more
    trigger keeps every True cell True; for trigger lists [A ⊆ B] every
    cell True in the mask of [A] is True in the mask of [B]. *)
Theorem C2_mask_monotone dem tr thresh :
  process_triggers dem tr thresh [] = full (height dem) (width dem) false
  /\ (forall r c v,
        cell (full (height dem) (width dem) false) r c = Some v -> v = false)
  /\ (forall ts t r c,
        cell (process_triggers dem tr thresh ts) r c = Some true ->
        cell (process_triggers dem tr thresh (ts ++ [t])) r c = Some true)
  /\ (forall A B r c,
        A ⊆ B ->
        cell (process_triggers dem tr thresh A) r c = Some true ->
        cell (process_triggers dem tr thresh B) r c = Some true).
Proof.
  split; [done|]. split.
  { intros r c v. rewrite full_mk. intros Hv.
    by apply cell_in_range in Hv as (_ & _ & ->). }
  assert (forall A B r c,
             A ⊆ B ->
             cell (process_triggers dem tr thresh A) r c = Some true ->
             cell (process_triggers dem tr thresh B) r c = Some true) as Hsub.
  { intros A B r c HAB. rewrite !process_triggers_mk. intros Hv.
    apply cell_in_range in Hv as (Hr & Hc & Hb).
    rewrite cell_mk by done. f_equal.
    symmetry in Hb. apply existsb_elem_of in Hb as (t & Ht & Hb).
    apply existsb_elem_of. exists t. split; [by apply HAB | done]. }
  split; [|done].
  intros ts t r c. apply Hsub. intros x Hx. apply elem_of_app. by left.
Qed.

Lemma C2_witness :
  [summit] ⊆ [valley; summit]
  /\ cell (process_triggers ridge_dem plain_tr (runout_thresh 19) [summit]) 0 1
     = Some true
  /\ cell (process_triggers ridge_dem plain_tr (runout_thresh 19)
             [valley; summit]) 0 1
     = Some true.
Proof.
  assert ([summit] ⊆ [valley; summit]) as Hsub.
  { intros x Hx. apply list_elem_of_singleton in Hx as ->.
    apply elem_of_cons. right. apply elem_of_cons. by left. }
  assert (cell (process_triggers ridge_dem plain_tr (runout_thresh 19)
                  [summit]) 0 1 = Some true) as Hone.
  { rewrite cell_process_triggers by (simpl; lia). simpl.
    rewrite ridge_summit_reaches_second by lia. done. }
  split; [done|]. split; [done|].
  exact (proj2 (proj2 (proj2
    (C2_mask_monotone ridge_dem plain_tr (runout_thresh 19))))
    [summit] [valley; summit] 0%nat 1%nat Hsub Hone).
Defined.

(** Merging masks by OR, on canonical rasters. *)
Lemma mask_or_mk h w (f g : nat -> nat -> bool) :
  mask_or (mk_raster h w f) (mk_raster h w g)
  = mk_raster h w (fun r c => f r c || g r c).
Proof. apply rmap2_mk. Qed.

Lemma existsb_perm {A} (f : A -> bool) (l l' : list A) :
  l ≡ₚ l' -> existsb f l = existsb f l'.
Proof.
  intros Hp. apply eq_true_iff_eq. rewrite !existsb_elem_of.
  split; intros (x & Hx & Hf); exists x; split; try done.
  - by rewrite <- Hp.
  - by rewrite Hp.
Qed.

Lemma existsb_concat {A} (f : A -> bool) (ls : list (list A)) :
  existsb f (concat ls) = existsb (existsb f) ls.
Proof.
  induction ls as [|l ls IH]; simpl; [done|].
  by rewrite existsb_app, IH.
Qed.

Lemma foldr_mask_or_mk dem tr thresh (parts : list (list coord)) :
  foldr mask_or (full (height dem) (width dem) false)
        (process_triggers dem tr thresh <$> parts)
  = mk_raster (height dem) (width dem)
      (fun r c =>
         existsb (existsb (fun t => reaches dem tr thresh t r c)) parts).
Proof.
  induction parts as [|p parts IH]; csimpl.
  - apply full_mk.
  - rewrite IH, process_triggers_mk. apply mask_or_mk.
Qed.

Lemma foldl_mask_or_mk dem tr thresh (parts : list (list coord))
    (m : nat -> nat -> bool) :
  fold_left mask_or (process_triggers dem tr thresh <$> parts)
            (mk_raster (height dem) (width dem) m)
  = mk_raster (height dem) (width dem)
      (fun r c =>
         m r c
         || existsb (existsb (fun t => reaches dem tr thresh t r c)) parts).
Proof.
  revert m; induction parts as [|p parts IH]; intros m; csimpl.
  - apply mk_raster_ext; intros. by rewrite orb_false_r.
  - rewrite process_triggers_mk, mask_or_mk, IH.
    apply mk_raster_ext; intros. by rewrite orb_assoc.
Qed.

(** C3.  The final mask of a trigger list is the final mask of every
    permutation of it, and it is the OR-merge, from the right or from the
    left, of the masks of the parts of every partition of it. *)
Theorem C3_order_independence dem tr thresh ts :
  (forall ts',
      ts' ≡ₚ ts ->
      process_triggers dem tr thresh ts' = process_triggers dem tr thresh ts)
  /\ (forall parts,
        concat parts ≡ₚ ts ->
        foldr mask_or (full (height dem) (width dem) false)
              (process_triggers dem tr thresh <$> parts)
        = process_triggers dem tr thresh ts
        /\ fold_left mask_or (process_triggers dem tr thresh <$> parts)
                     (full (height dem) (width dem) false)
           = process_triggers dem tr thresh ts).
Proof.
  split.
  - intros ts' Hp. rewrite !process_triggers_mk.
    apply mk_raster_ext; intros r c _ _. by apply existsb_perm.
  - intros parts Hp. split.
    + rewrite foldr_mask_or_mk, process_triggers_mk.
      apply mk_raster_ext; intros r c _ _.
      rewrite <- existsb_concat. by apply existsb_perm.
    + rewrite full_mk, foldl_mask_or_mk, process_triggers_mk.
      apply mk_raster_ext; intros r c _ _. simpl.
      rewrite <- existsb_concat. by apply existsb_perm.
Qed.

Lemma C3_witness :
  [valley; summit] ≡ₚ [summit; valley]
  /\ concat [[valley]; [summit]] ≡ₚ [summit; valley]
  /\ process_triggers ridge_dem plain_tr (runout_thresh 19) [valley; summit]
     = process_triggers ridge_dem plain_tr (runout_thresh 19) [summit; valley]
  /\ foldr mask_or (full (height ridge_dem) (width ridge_dem) false)
           (process_triggers ridge_dem plain_tr (runout_thresh 19)
              <$> [[valley]; [summit]])
     = process_triggers ridge_dem plain_tr (runout_thresh 19) [summit; valley].
Proof.
  assert ([valley; summit] ≡ₚ [summit; valley]) as Hp by apply perm_swap.
  split; [done|]. split; [done|]. split.
  - exact (proj1 (C3_order_independence ridge_dem plain_tr (runout_thresh 19)
                    [summit; valley]) [valley; summit] Hp).
  - exact (proj1 (proj2 (C3_order_independence ridge_dem plain_tr
                           (runout_thresh 19) [summit; valley])
                    [[valley]; [summit]] Hp)).
Defined.

(** C4.  On the ridge with a [uint16] band a trigger marks a cell that
    is strictly higher than its sampled elevation.  The trigger on the
    third cell is sampled at 0 and the second cell, 100 units away, holds
    500: the difference 0 - 500 wraps around to 65036 in [uint16], which
    the clipping of line 169 leaves as it is, and its square wraps around
    to 53392; the quotient 5.3392 is above every threshold below 5, so
    that the cell of the comparison raster, and of the final mask, is
    True. *)
Theorem C4_uint16_uphill_marked (t : R) :
  t < 5 ->
  g_sample ridge_uint16 (project plain_tr valley) = 0%Z
  /\ g_band ridge_uint16 0 1 = 500%Z
  /\ e_sub uint16 0%Z 500%Z = 65036%Z
  /\ e_neg uint16 65036%Z = false
  /\ e_mul uint16 65036%Z 65036%Z = 53392%Z
  /\ g_dist2 exact64 ridge_uint16 (project plain_tr valley) 0 1 = 10000
  /\ cell (g_trigger_mask exact64 ridge_uint16 plain_tr (Finite t) valley) 0 1
     = Some true
  /\ cell (g_process_triggers exact64 ridge_uint16 plain_tr (Finite t)
             [valley]) 0 1
     = Some true.
Proof.
  intros Ht.
  split; [apply ridge_uint16_valley|]. split; [done|]. split; [done|].
  split; [done|]. split; [done|].
  split; [unfold g_dist2; simpl; lra|].
  split.
  - rewrite cell_g_trigger_mask by (simpl; lia).
    by rewrite ridge_uint16_valley_second.
  - rewrite cell_g_process_triggers by (simpl; lia). simpl.
    by rewrite ridge_uint16_valley_second.
Qed.

Lemma C4_witness :
  runout_thresh 19 < 5
  /\ (g_sample ridge_uint16 (project plain_tr valley)
      < g_band ridge_uint16 0 1)%Z
  /\ cell (g_trigger_mask exact64 ridge_uint16 plain_tr
             (Finite (runout_thresh 19)) valley) 0 1
     = Some true.
Proof.
  assert (runout_thresh 19 < 5) as Ht.
  { pose proof (runout_thresh_lt_1 19 ltac:(lia)). lra. }
  destruct (C4_uint16_uphill_marked (runout_thresh 19) Ht)
    as (Hte & Hze & _ & _ & _ & _ & Hcell & _).
  split; [done|]. split; [|done].
  rewrite Hte, Hze. done.
Defined.

(** C5, as the claim states it, fails: at the summit trigger of the
    ridge, the first cell is at squared distance zero, and the quotient
    the script compares with the threshold there is NaN; the cell of the
    mask is the False that the comparison with NaN gives. *)
Lemma C5_counterexample :
  dist2 ridge_dem plain_tr summit 0 0 = 0
  /\ cell (trigger_quotients ridge_dem plain_tr summit) 0 0 = Some NaN
  /\ cell (trigger_mask ridge_dem plain_tr (runout_thresh 19) summit) 0 0
     = Some (fgt NaN (runout_thresh 19)).
Proof.
  split; [apply ridge_summit_own_cell|]. split.
  - rewrite cell_trigger_quotients by (simpl; lia).
    by rewrite ridge_summit_quotient_own_cell.
  - rewrite cell_trigger_mask by (simpl; lia). unfold reaches.
    by rewrite ridge_summit_quotient_own_cell.
Qed.

(** C5, amended.  At a cell at squared distance zero the script divides
    by zero without a guard: the quotient is +infinity when the trigger's
    sampled elevation is above the cell's and NaN otherwise, and the cell
    of the comparison raster is True in the first case and False in the
    second, for every threshold; it is False whenever the sampled
    elevation is the cell's own elevation. *)
Theorem C5_zero_distance dem tr thresh t r c :
  (r < height dem)%nat -> (c < width dem)%nat ->
  dist2 dem tr t r c = 0 ->
  cell (trigger_quotients dem tr t) r c
  = Some (if decide (band dem r c < trigger_elevation dem tr t)
          then PosInf else NaN)
  /\ cell (trigger_mask dem tr thresh t) r c
     = Some (bool_decide (band dem r c < trigger_elevation dem tr t))
  /\ (trigger_elevation dem tr t = band dem r c ->
      cell (trigger_mask dem tr thresh t) r c = Some false).
Proof.
  intros Hr Hc Hd.
  assert (quotient_at dem tr t r c
          = if decide (band dem r c < trigger_elevation dem tr t)
            then PosInf else NaN) as Hq.
  { unfold quotient_at. rewrite Hd. unfold fdiv. rewrite decide_True by done.
    destruct (decide (band dem r c < trigger_elevation dem tr t)) as [Hlt|Hge].
    - rewrite Rmax_left by lra. rewrite decide_True; [done|]. nra.
    - rewrite Rmax_right by lra. rewrite !decide_False by lra. done. }
  assert (cell (trigger_mask dem tr thresh t) r c
          = Some (bool_decide (band dem r c < trigger_elevation dem tr t)))
    as Hm.
  { rewrite cell_trigger_mask by done. unfold reaches. rewrite Hq. f_equal.
    destruct (decide (band dem r c < trigger_elevation dem tr t)); simpl.
    - by rewrite bool_decide_eq_true_2.
    - by rewrite bool_decide_eq_false_2. }
  split; [|split; [done|]].
  - rewrite cell_trigger_quotients by done. by rewrite Hq.
  - intros Heq. rewrite Hm. f_equal. apply bool_decide_eq_false_2. lra.
Qed.

Lemma C5_witness :
  (0 < height ridge_dem)%nat /\ (0 < width ridge_dem)%nat
  /\ dist2 ridge_dem plain_tr summit 0 0 = 0
  /\ cell (trigger_mask ridge_dem plain_tr (runout_thresh 19) summit) 0 0
     = Some (bool_decide
               (band ridge_dem 0 0 < trigger_elevation ridge_dem plain_tr summit)).
Proof.
  split; [simpl; lia|]. split; [simpl; lia|].
  split; [apply ridge_summit_own_cell|].
  apply (C5_zero_distance ridge_dem plain_tr (runout_thresh 19) summit 0 0);
    [simpl; lia | simpl; lia | apply ridge_summit_own_cell].
Defined.

Lemma g_process_triggers_insert F dem tr thresh ts t ts' :
  g_process_triggers F dem tr thresh (ts ++ t :: ts')
  = mask_or (g_process_triggers F dem tr thresh (ts ++ ts'))
            (g_trigger_mask F dem tr thresh t).
Proof.
  rewrite !g_process_triggers_mk, g_trigger_mask_mk, mask_or_mk.
  apply mk_raster_ext; intros r c _ _.
  rewrite !existsb_app. simpl.
  destruct (existsb _ ts), (g_reaches F dem tr thresh t r c),
    (existsb _ ts'); done.
Qed.

(** C6, as the claim states it, fails, for a trigger on a no-data cell
    and for a trigger outside the grid.  The first cell of the DEM holds
    the no-data value 9999 and the second cell 0.  The trigger on the
    first cell is sampled at 9999 and marks the second cell; the trigger
    east of the grid is sampled at the no-data value as well, marks the
    second cell, and the mask of this trigger alone is not empty. *)
Lemma C6_counterexample :
  on_nodata gap_float (project plain_tr summit)
  /\ cell (g_trigger_mask exact64 gap_float plain_tr
             (Finite (runout_thresh 19)) summit) 0 1
     = Some true
  /\ off_grid gap_float (project plain_tr east)
  /\ cell (g_trigger_mask exact64 gap_float plain_tr
             (Finite (runout_thresh 19)) east) 0 1
     = Some true
  /\ g_process_triggers exact64 gap_float plain_tr
       (Finite (runout_thresh 19)) [east]
     <> full (g_height gap_float) (g_width gap_float) false.
Proof.
  pose proof gap_summit_on_nodata as Hs.
  pose proof gap_east_off_grid as He.
  assert (g_reaches exact64 gap_float plain_tr (Finite (runout_thresh 19))
            summit 0 1 = true) as Hrs.
  { apply gap_reaches_second; [|by left|done].
    by rewrite (g_sample_on_nodata _ _ Hs). }
  assert (g_reaches exact64 gap_float plain_tr (Finite (runout_thresh 19))
            east 0 1 = true) as Hre.
  { apply gap_reaches_second; [|by right|done].
    by rewrite (g_sample_off_grid _ _ He). }
  split; [done|]. split.
  { rewrite cell_g_trigger_mask by (simpl; lia). by rewrite Hrs. }
  split; [done|]. split.
  { rewrite cell_g_trigger_mask by (simpl; lia). by rewrite Hre. }
  intros Heq.
  assert (cell (g_process_triggers exact64 gap_float plain_tr
                  (Finite (runout_thresh 19)) [east]) 0 1 = Some true) as Hc.
  { rewrite cell_g_process_triggers by (simpl; lia). simpl. by rewrite Hre. }
  rewrite Heq in Hc. done.
Qed.

(** C6, amended.  A trigger that is projected outside the grid, or onto a
    cell that holds the declared no-data value, is not skipped.  Its
    sampled elevation is the fill value of the DEM, which is the no-data
    value, or 0 for a trigger outside a DEM that declares none; its
    comparison raster is the test with this elevation, in the data type
    of the band, at every cell, and the loop merges it into the mask like
    that of every other trigger and goes on.  Of the cells that hold the
    fill value it marks none. *)
Theorem C6_sampling_gap F dem tr thresh t :
  off_grid dem (project tr t) \/ on_nodata dem (project tr t) ->
  g_sample dem (project tr t) = g_fill dem
  /\ g_trigger_mask F dem tr thresh t
     = mk_raster (g_height dem) (g_width dem)
         (g_test F dem thresh (project tr t) (g_fill dem))
  /\ (forall r c,
        (r < g_height dem)%nat -> (c < g_width dem)%nat ->
        cell (g_trigger_mask F dem tr thresh t) r c
        = Some (g_test F dem thresh (project tr t) (g_fill dem) r c))
  /\ (forall ts ts',
        g_process_triggers F dem tr thresh (ts ++ t :: ts')
        = mask_or (g_process_triggers F dem tr thresh (ts ++ ts'))
                  (g_trigger_mask F dem tr thresh t))
  /\ (forall r c,
        lawful (g_dtype dem) -> square_like thresh ->
        (r < g_height dem)%nat -> (c < g_width dem)%nat ->
        g_band dem r c = g_fill dem ->
        cell (g_trigger_mask F dem tr thresh t) r c = Some false).
Proof.
  intros Hmiss.
  assert (g_sample dem (project tr t) = g_fill dem) as Hte.
  { destruct Hmiss as [Hoff|Hnd];
      [by apply g_sample_off_grid | by apply g_sample_on_nodata]. }
  assert (g_trigger_mask F dem tr thresh t
          = mk_raster (g_height dem) (g_width dem)
              (g_test F dem thresh (project tr t) (g_fill dem))) as Hmask.
  { rewrite g_trigger_mask_mk. unfold g_reaches. by rewrite Hte. }
  split; [done|]. split; [done|]. split.
  { intros r c Hr Hc. by rewrite Hmask, cell_mk. }
  split; [intros ts ts'; apply g_process_triggers_insert|].
  intros r c HD Ht Hr Hc Hfill. rewrite Hmask, cell_mk by done.
  f_equal. rewrite <- Hfill. by apply g_test_level.
Qed.

Lemma C6_witness :
  (off_grid gap_float (project plain_tr east)
   \/ on_nodata gap_float (project plain_tr east))
  /\ g_sample gap_float (project plain_tr east) = g_fill gap_float
  /\ g_process_triggers exact64 gap_float plain_tr (Finite (runout_thresh 19))
       ([summit] ++ east :: [])
     = mask_or (g_process_triggers exact64 gap_float plain_tr
                  (Finite (runout_thresh 19)) ([summit] ++ []))
               (g_trigger_mask exact64 gap_float plain_tr
                  (Finite (runout_thresh 19)) east).
Proof.
  assert (off_grid gap_float (project plain_tr east)
          \/ on_nodata gap_float (project plain_tr east)) as Hmiss
    by (left; apply gap_east_off_grid).
  destruct (C6_sampling_gap exact64 gap_float plain_tr
              (Finite (runout_thresh 19)) east Hmiss)
    as (Hte & _ & _ & Hloop & _).
  split; [done|]. split; [done|]. apply Hloop.
Defined.

(** C7, as the claim states it, fails: on the flat DEM at elevation 100
    whose no-data value is 9999, with the threshold of 19 degrees, the
    trigger east of the grid is sampled at the no-data value and marks
    both cells. *)
Lemma C7_counterexample :
  (forall r c, g_band flat_float r c = 100)
  /\ off_grid flat_float (project plain_tr east)
  /\ g_process_triggers exact64 flat_float plain_tr
       (Finite (runout_thresh 19)) [east]
     = [[true; true]].
Proof.
  split; [done|]. split; [apply flat_east_off_grid|].
  rewrite g_process_triggers_mk. unfold mk_raster; simpl.
  by rewrite !flat_east_reaches by lia.
Qed.

(** C7, amended.  On a flat grid, the same value at every cell, with a
    threshold that is the square of a tangent, as that of 19 degrees is,
    and triggers that are all projected into the grid, the final mask is
    entirely False, each trigger's own cell included; this holds in the
    arithmetic of every band type in which a value minus itself is 0. *)
Theorem C7_flat_grid F dem tr thresh k triggers :
  lawful (g_dtype dem) ->
  square_like thresh ->
  (forall r c, (r < g_height dem)%nat -> (c < g_width dem)%nat ->
               g_band dem r c = k) ->
  (forall t, t ∈ triggers -> is_Some (g_index dem (project tr t))) ->
  g_process_triggers F dem tr thresh triggers
  = full (g_height dem) (g_width dem) false
  /\ (forall t r c,
        t ∈ triggers -> (r < g_height dem)%nat -> (c < g_width dem)%nat ->
        cell (g_trigger_mask F dem tr thresh t) r c = Some false).
Proof.
  intros HD Ht Hflat Hin.
  assert (forall t r c,
             t ∈ triggers -> (r < g_height dem)%nat -> (c < g_width dem)%nat ->
             g_reaches F dem tr thresh t r c = false) as Hno.
  { intros t r c Hmem Hr Hc. unfold g_reaches.
    destruct (Hin t Hmem) as [[r0 c0] Hp].
    destruct (g_index_in_grid _ _ _ _ Hp) as [Hr0 Hc0].
    rewrite (g_sample_in_grid _ _ _ _ Hp), (Hflat r0 c0 Hr0 Hc0),
      <- (Hflat r c Hr Hc).
    by apply g_test_level. }
  split.
  - rewrite g_process_triggers_mk, full_mk.
    apply mk_raster_ext; intros r c Hr Hc.
    destruct (existsb _ triggers) eqn:Hex; [|done].
    apply existsb_elem_of in Hex as (t & Hmem & Hb).
    by rewrite Hno in Hb.
  - intros t r c Hmem Hr Hc. rewrite cell_g_trigger_mask by done.
    f_equal. by apply Hno.
Qed.

Lemma C7_witness :
  lawful (g_dtype flat_uint16)
  /\ square_like (Finite (runout_thresh 19))
  /\ (forall t, t ∈ [middle] -> is_Some (g_index flat_uint16 (project plain_tr t)))
  /\ g_process_triggers exact64 flat_uint16 plain_tr
       (Finite (runout_thresh 19)) [middle]
     = full (g_height flat_uint16) (g_width flat_uint16) false.
Proof.
  assert (square_like (Finite (runout_thresh 19))) as Ht
    by apply runout_thresh_nonneg.
  assert (forall t, t ∈ [middle]
                    -> is_Some (g_index flat_uint16 (project plain_tr t)))
    as Hin.
  { intros t Hmem. apply list_elem_of_singleton in Hmem as ->.
    rewrite flat_uint16_middle. by eexists. }
  split; [apply uint16_lawful|]. split; [done|]. split; [done|].
  exact (proj1 (C7_flat_grid exact64 flat_uint16 plain_tr
                  (Finite (runout_thresh 19)) 100%Z [middle]
                  uint16_lawful Ht (fun _ _ _ _ => eq_refl) Hin)).
Defined.

(** C8.  For runout angles [0 < a1 < a2 < 90], a cell that a trigger
    marks at angle [a2] it marks at angle [a1] too, and so does the final
    mask of every trigger list: a larger angle gives a smaller or equal
    set of reachable cells. *)
Theorem C8_threshold_monotone dem tr a1 a2 r c :
  (0 < a1)%Z -> (a1 < a2)%Z -> (a2 < 90)%Z ->
  (forall t,
      cell (trigger_mask dem tr (runout_thresh a2) t) r c = Some true ->
      cell (trigger_mask dem tr (runout_thresh a1) t) r c = Some true)
  /\ (forall ts,
        cell (process_triggers dem tr (runout_thresh a2) ts) r c = Some true ->
        cell (process_triggers dem tr (runout_thresh a1) ts) r c = Some true).
Proof.
  intros H0 H12 H90.
  pose proof (runout_thresh_mono a1 a2 H0 H12 H90) as Hthr.
  assert (forall t, reaches dem tr (runout_thresh a2) t r c = true ->
                    reaches dem tr (runout_thresh a1) t r c = true) as Hre.
  { intros t. unfold reaches. apply fgt_antitone. lra. }
  split.
  - intros t. rewrite !trigger_mask_mk. intros Hv.
    apply cell_in_range in Hv as (Hr & Hc & Hb).
    rewrite cell_mk by done. f_equal. by apply Hre.
  - intros ts. rewrite !process_triggers_mk. intros Hv.
    apply cell_in_range in Hv as (Hr & Hc & Hb).
    rewrite cell_mk by done. f_equal.
    symmetry in Hb. apply existsb_elem_of in Hb as (t & Ht & Hb).
    apply existsb_elem_of. exists t. split; [done | by apply Hre].
Qed.

Lemma C8_witness :
  (0 < 19)%Z /\ (19 < 30)%Z /\ (30 < 90)%Z
  /\ cell (trigger_mask ridge_dem plain_tr (runout_thresh 30) summit) 0 1
     = Some true
  /\ cell (trigger_mask ridge_dem plain_tr (runout_thresh 19) summit) 0 1
     = Some true.
Proof.
  assert (cell (trigger_mask ridge_dem plain_tr (runout_thresh 30) summit) 0 1
          = Some true) as H30.
  { rewrite cell_trigger_mask by (simpl; lia).
    rewrite ridge_summit_reaches_second by lia. done. }
  split; [lia|]. split; [lia|]. split; [lia|]. split; [done|].
  exact (proj1 (C8_threshold_monotone ridge_dem plain_tr 19 30 0 1
                  ltac:(lia) ltac:(lia) ltac:(lia)) summit H30).
Defined.

(** ** [int()] *)











(** *** Decimal numerals *)









(** ** The angle and the script *)

(** A run in which nothing fails. *)
Lemma outcome_ok w args z dem features pr tr :
  which w gdal_polygonize = true -> which w ogr2ogr = true ->
  rasterio_open w (ns_dem args) = Some dem ->
  geojson_load w (ns_triggers args) = Some features ->
  true_div_overflows z = false ->
  from_crs w dem = Some pr ->
  (forall t, t ∈ flatten_triggers features
             -> pr (snd t) (fst t) = Some (tr (snd t) (fst t))) ->
  postprocess w (ns_output args) = true ->
  outcome w args z
  = ([Which gdal_polygonize; Which ogr2ogr; OpenDem (ns_dem args);
      LoadTriggers (ns_triggers args); ReadBand; WriteRunout (ns_output args)],
     inr (g_process_triggers (np_float64 w) dem tr (np_thresh w z)
            (flatten_triggers features))).
Proof.
  intros Hg Ho Hdem Hfeat Hz Hcrs Hpr Hpost. unfold outcome.
  rewrite Hg, Ho, Hdem, Hfeat, Hz, Hcrs. simpl.
  rewrite (g_loop_finite _ _ _ tr) by done. by rewrite Hpost.
Qed.

(** The same on a DEM with an exact float band: the mask is that of the
    evaluation over finite floats. *)
Lemma outcome_exact_band w args z h wd b nd coords rowcol features pr tr t :
  which w gdal_polygonize = true -> which w ogr2ogr = true ->
  rasterio_open w (ns_dem args) = Some (float_dem h wd b nd coords rowcol) ->
  geojson_load w (ns_triggers args) = Some features ->
  true_div_overflows z = false ->
  np_float64 w = exact64 -> np_thresh w z = Finite t ->
  from_crs w (float_dem h wd b nd coords rowcol) = Some pr ->
  (forall c, c ∈ flatten_triggers features
             -> pr (snd c) (fst c) = Some (tr (snd c) (fst c))) ->
  postprocess w (ns_output args) = true ->
  snd (outcome w args z)
  = inr (process_triggers (as_dataset h wd b nd coords rowcol) tr t
           (flatten_triggers features)).
Proof.
  intros Hg Ho Hdem Hfeat Hz HF Ht Hcrs Hpr Hpost.
  rewrite (outcome_ok w args z _ features pr tr) by done. simpl.
  rewrite HF, Ht. f_equal. apply exact_band_agrees.
Qed.

(** What a run that ends with a mask has gone through. *)
Lemma outcome_finished w args z evs m :
  outcome w args z = (evs, inr m) ->
  exists dem features pr,
    rasterio_open w (ns_dem args) = Some dem
    /\ geojson_load w (ns_triggers args) = Some features
    /\ from_crs w dem = Some pr
    /\ g_loop (np_float64 w) dem pr (np_thresh w z)
              (flatten_triggers features)
              (full (g_height dem) (g_width dem) false)
       = inr m.
Proof.
  unfold outcome.
  destruct (which w gdal_polygonize); simpl; [|done].
  destruct (which w ogr2ogr); simpl; [|done].
  destruct (rasterio_open w (ns_dem args)) as [dem|] eqn:Hdem; [|done].
  destruct (geojson_load w (ns_triggers args)) as [features|] eqn:Hfeat;
    [|done].
  destruct (true_div_overflows z); [done|].
  destruct (from_crs w dem) as [pr|] eqn:Hcrs; [|done].
  destruct (g_loop _ _ _ _ _ _) as [e|m'] eqn:Hloop; [done|].
  destruct (postprocess w (ns_output args)); [|done].
  intros [= _ <-]. by exists dem, features, pr.
Qed.

Lemma parse_args_without_alpha cl args :
  parse_args cl = inr args ->
  parse_args (without_alpha cl)
  = inr {| ns_dem := ns_dem args;
           ns_triggers := ns_triggers args;
           ns_alpha := PyInt 19;
           ns_output := ns_output args |}.
Proof.
  unfold parse_args, without_alpha; simpl.
  destruct (cl_refused cl); [done|].
  destruct (opt_dem cl) as [d|]; [|done].
  destruct (opt_triggers cl) as [t|]; [|done].
  by intros [= <-].
Qed.

(** C9, as the claim states it, fails: with [-a 120] the angle 120, which
    is not below 90, is not rejected; the run goes through every stage
    and ends with the mask at the threshold of 120 degrees. *)
Lemma C9_counterexample :
  ~ (0 < 120 < 90)%Z
  /\ main ridge_world (cmd (Some (text "120")))
     = ([Which gdal_polygonize; Which ogr2ogr; OpenDem "dem.tif";
         LoadTriggers "export.json"; ReadBand; WriteRunout "output.geojson"],
        inr (g_process_triggers exact64 ridge_float plain_tr
               (np_thresh ridge_world 120) [summit])).
Proof.
  split; [lia|]. rewrite main_stages.
  change (parse_args (cmd (Some (text "120"))))
    with (inr (B := namespace) (A := error)
            {| ns_dem := "dem.tif"; ns_triggers := "export.json";
               ns_alpha := PyStr (text "120");
               ns_output := "output.geojson" |}).
  assert (py_int (PyStr (text "120")) = inr 120%Z) as Hz by done.
  cbv iota beta. cbn [ns_alpha]. rewrite Hz.
  by rewrite (outcome_ok ridge_world _ 120 ridge_float [Point summit]
                (fun lat lon => Some (plain_tr lat lon)) plain_tr).
Qed.

(** C9, amended.  The runout angle defaults to 19 degrees.  The script
    does not compare it with 0 or with 90: an integer that [int()] yields
    and that fits a float is not rejected, whatever its value.  The run
    makes the same requests of its surroundings as without [-a], raises
    the same exception if it raises one, and what it computes when it
    ends is the mask at the threshold of the given angle. *)
Theorem C9_alpha_default_unchecked w cl args z :
  parse_args cl = inr args ->
  py_int (ns_alpha args) = inr z ->
  true_div_overflows z = false ->
  (opt_alpha cl = None -> z = 19%Z)
  /\ fst (main w cl) = fst (main w (without_alpha cl))
  /\ (forall e, snd (main w cl) = inl e
                <-> snd (main w (without_alpha cl)) = inl e)
  /\ (forall evs m,
        main w cl = (evs, inr m) ->
        exists dem features pr,
          rasterio_open w (ns_dem args) = Some dem
          /\ geojson_load w (ns_triggers args) = Some features
          /\ from_crs w dem = Some pr
          /\ g_loop (np_float64 w) dem pr (np_thresh w z)
                    (flatten_triggers features)
                    (full (g_height dem) (g_width dem) false)
             = inr m).
Proof.
  intros Hargs Hz Hfit.
  assert (main w cl = outcome w args z) as Hmain
    by (by rewrite main_stages, Hargs, Hz).
  assert (main w (without_alpha cl) = outcome w args 19) as Hdef.
  { rewrite main_stages, (parse_args_without_alpha _ _ Hargs). done. }
  assert (true_div_overflows 19 = false) as H19 by done.
  split; [|split; [|split]].
  - intros Hnone. unfold parse_args in Hargs. rewrite Hnone in Hargs.
    destruct (cl_refused cl); [done|].
    destruct (opt_dem cl), (opt_triggers cl); try done.
    injection Hargs as <-. simpl in Hz. by injection Hz as <-.
  - rewrite Hmain, Hdef. by apply outcome_angle.
  - intros e. rewrite Hmain, Hdef. split; by apply outcome_angle.
  - intros evs m. rewrite Hmain. apply outcome_finished.
Qed.

Lemma C9_witness :
  parse_args (cmd (Some (text "120")))
  = inr {| ns_dem := "dem.tif"; ns_triggers := "export.json";
           ns_alpha := PyStr (text "120"); ns_output := "output.geojson" |}
  /\ py_int (PyStr (text "120")) = inr 120%Z
  /\ true_div_overflows 120 = false
  /\ fst (main ridge_world (cmd (Some (text "120"))))
     = fst (main ridge_world (without_alpha (cmd (Some (text "120"))))).
Proof.
  split; [done|]. split; [done|]. split; [done|].
  exact (proj1 (proj2
    (C9_alpha_default_unchecked ridge_world (cmd (Some (text "120")))
       {| ns_dem := "dem.tif"; ns_triggers := "export.json";
          ns_alpha := PyStr (text "120"); ns_output := "output.geojson" |}
       120%Z eq_refl eq_refl eq_refl))).
Defined.



(** ** Further properties of the evaluation *)

Lemma mk_raster_length {A} h w (f : nat -> nat -> A) :
  length (mk_raster h w f) = h.
Proof. unfold mk_raster. by rewrite length_fmap, length_seq. Qed.

Lemma mk_raster_rows {A} h w (f : nat -> nat -> A) :
  Forall (fun row => length row = w) (mk_raster h w f).
Proof.
  unfold mk_raster. apply Forall_fmap, Forall_forall. intros r _. simpl.
  by rewrite length_fmap, length_seq.
Qed.

(** X1.  The coordinate rasters follow the grid: at every cell [(r, c)]
    of the DEM, [eastings] and [northings] hold the two coordinates that
    the transform gives for row [r] and column [c], the mesh grid holds
    [c] and [r], and [dem_values] holds the band value. *)
Theorem X1_coordinate_rasters dem r c :
  (r < height dem)%nat -> (c < width dem)%nat ->
  cell (eastings dem) r c = Some (fst (xy dem r c))
  /\ cell (northings dem) r c = Some (snd (xy dem r c))
  /\ cell (fst (rows_cols dem)) r c = Some c
  /\ cell (snd (rows_cols dem)) r c = Some r
  /\ cell (dem_values dem) r c = Some (band dem r c).
Proof.
  intros Hr Hc. rewrite eastings_mk, northings_mk, rows_cols_mk.
  unfold dem_values. simpl. by rewrite !cell_mk.
Qed.

Lemma X1_witness :
  (0 < height ridge_dem)%nat /\ (2 < width ridge_dem)%nat
  /\ cell (eastings ridge_dem) 0 2 = Some (fst (xy ridge_dem 0 2)).
Proof.
  split; [simpl; lia|]. split; [simpl; lia|].
  apply (X1_coordinate_rasters ridge_dem 0 2); simpl; lia.
Defined.

(** X2.  The runout mask has the shape of the DEM after any list of
    triggers: [height] rows of [width] cells each, so a cell of the mask
    exists exactly at the indices of the grid. *)
Theorem X2_mask_shape dem tr thresh ts :
  length (process_triggers dem tr thresh ts) = height dem
  /\ Forall (fun row => length row = width dem)
            (process_triggers dem tr thresh ts)
  /\ (forall r c,
        is_Some (cell (process_triggers dem tr thresh ts) r c)
        <-> (r < height dem)%nat /\ (c < width dem)%nat).
Proof.
  rewrite process_triggers_mk. split; [apply mk_raster_length|].
  split; [apply mk_raster_rows|].
  intros r c. split.
  - intros [v Hv]. by apply cell_in_range in Hv as (Hr & Hc & _).
  - intros [Hr Hc]. by rewrite cell_mk.
Qed.

(** X3.  The final mask depends only on which triggers occur in the
    list: two lists with the same elements, in any order and with any
    repetitions, give the same mask. *)
Theorem X3_mask_of_trigger_set dem tr thresh ts ts' :
  (forall t, t ∈ ts <-> t ∈ ts') ->
  process_triggers dem tr thresh ts = process_triggers dem tr thresh ts'.
Proof.
  intros Hsame. rewrite !process_triggers_mk.
  apply mk_raster_ext; intros r c _ _.
  apply eq_true_iff_eq. rewrite !existsb_elem_of.
  split; intros (t & Ht & Hb); exists t; split; try done; by apply Hsame.
Qed.

Lemma X3_witness :
  (forall t, t ∈ [summit; summit; valley] <-> t ∈ [valley; summit])
  /\ process_triggers ridge_dem plain_tr (runout_thresh 19)
       [summit; summit; valley]
     = process_triggers ridge_dem plain_tr (runout_thresh 19) [valley; summit].
Proof.
  assert (forall t, t ∈ [summit; summit; valley] <-> t ∈ [valley; summit])
    as Hsame.
  { intros t. rewrite !elem_of_cons, !elem_of_nil. tauto. }
  split; [done|].
  exact (X3_mask_of_trigger_set ridge_dem plain_tr (runout_thresh 19)
           [summit; summit; valley] [valley; summit] Hsame).
Defined.

(** X9.  The sign of the runout angle is lost in the square: the angle
    [-a] gives the threshold of [a], hence the same mask. *)
Theorem X9_negative_angle dem tr a ts :
  runout_thresh (- a) = runout_thresh a
  /\ process_triggers dem tr (runout_thresh (- a)) ts
     = process_triggers dem tr (runout_thresh a) ts.
Proof.
  assert (runout_thresh (- a) = runout_thresh a) as Heq.
  { unfold runout_thresh. rewrite opp_IZR.
    replace (- IZR a / 180 * PI) with (- (IZR a / 180 * PI)) by lra.
    rewrite tan_neg. lra. }
  split; [done | by rewrite Heq].
Qed.

(** ** The loop, the trigger file and the script *)

Lemma fold_loop_body dem tr thresh n ts st :
  fold_left (loop_body dem tr thresh n) ts st
  = {| ls_printed :=
         ls_printed st
         ++ ((fun i => progress_message i n) <$> seq (ls_iter st) (length ts));
       ls_iter := ls_iter st + length ts;
       ls_terrain :=
         fold_left (process_trigger dem tr thresh) ts (ls_terrain st) |}.
Proof.
  revert st; induction ts as [|t ts IH]; intros [p i m]; csimpl.
  - by rewrite app_nil_r, Nat.add_0_r.
  - rewrite IH. unfold loop_body; simpl. f_equal.
    + rewrite <- app_assoc. simpl. by rewrite Nat.add_1_r.
    + lia.
Qed.

(** X10.  The loop prints one progress line per trigger, "Trigger i of
    n" for [i] from 1 to [n] in this order, leaves [iter] at [n + 1], and
    the printing does not touch the mask, which is that of
    [process_triggers]. *)
Theorem X10_trigger_loop dem tr thresh triggers :
  ls_printed (trigger_loop dem tr thresh triggers)
  = (fun i => progress_message i (length triggers))
      <$> seq 1 (length triggers)
  /\ ls_iter (trigger_loop dem tr thresh triggers) = (length triggers + 1)%nat
  /\ ls_terrain (trigger_loop dem tr thresh triggers)
     = process_triggers dem tr thresh triggers.
Proof.
  unfold trigger_loop. rewrite fold_loop_body. simpl.
  split; [done|]. split; [lia | done].
Qed.

(** X11.  The trigger list is the points of the features in file order:
    flattening distributes over concatenation of feature lists, a list of
    point markers gives its points, a line gives its points, a point
    occurs in the list exactly when a feature holds it, the number of
    triggers is the number of points of all features, and features
    without points give no trigger. *)
Theorem X11_flatten_triggers :
  (forall fs1 fs2,
      flatten_triggers (fs1 ++ fs2)
      = flatten_triggers fs1 ++ flatten_triggers fs2)
  /\ (forall cs, flatten_triggers (Point <$> cs) = cs)
  /\ (forall cs, flatten_triggers [LineString cs] = cs)
  /\ (forall fs c,
        c ∈ flatten_triggers fs
        <-> exists f, f ∈ fs
              /\ match f with
                 | Point p => c = p
                 | LineString cs => c ∈ cs
                 end)
  /\ (forall fs,
        length (flatten_triggers fs)
        = sum_list ((fun f => match f with
                              | Point _ => 1%nat
                              | LineString cs => length cs
                              end) <$> fs))
  /\ (forall fs,
        Forall (fun f => f = LineString []) fs -> flatten_triggers fs = []).
Proof.
  unfold flatten_triggers, triggers_raw.
  split; [|split; [|split; [|split; [|split]]]].
  - intros fs1 fs2. by rewrite fmap_app, concat_app.
  - intros cs. induction cs as [|c cs IH]; csimpl; [done | by rewrite IH].
  - intros cs. simpl. by rewrite app_nil_r.
  - intros fs c. induction fs as [|f fs IH]; csimpl.
    + split; [by intros ?%elem_of_nil|].
      by intros (f & ?%elem_of_nil & _).
    + rewrite elem_of_app, IH. split.
      * intros [Hc|(f' & Hf' & Hc)].
        -- exists f. split; [by apply elem_of_cons; left|].
           destruct f as [p|cs]; [|done].
           by apply list_elem_of_singleton in Hc.
        -- exists f'. split; [by apply elem_of_cons; right | done].
      * intros (f' & Hf' & Hc). apply elem_of_cons in Hf' as [->|Hf'].
        -- left. destruct f as [p|cs]; [|done].
           by apply list_elem_of_singleton.
        -- right. by exists f'.
  - intros fs. induction fs as [|f fs IH]; csimpl; [done|].
    rewrite length_app, IH. by destruct f.
  - intros fs Hfs. induction Hfs as [|f fs -> _ IH]; csimpl; [done|].
    by rewrite IH.
Qed.

(** X13.  The tools are looked for before any input is opened: when one
    of them is missing the script raises with the name of the first
    missing one, [gdal_polygonize] first, and its only events are tool
    checks. *)
Theorem X13_missing_tool w cl args z :
  parse_args cl = inr args ->
  py_int (ns_alpha args) = inr z ->
  which w gdal_polygonize = false \/ which w ogr2ogr = false ->
  exists evs tool,
    main w cl = (evs, inl (ToolNotFound tool))
    /\ which w tool = false
    /\ (which w gdal_polygonize = false -> tool = gdal_polygonize)
    /\ Forall (fun ev => exists t, ev = Which t) evs.
Proof.
  intros Hargs Hz Hmissing. rewrite main_stages, Hargs, Hz. unfold outcome.
  destruct (which w gdal_polygonize) eqn:Hg; simpl.
  - destruct Hmissing as [|Ho]; [done|]. rewrite Ho. simpl.
    exists [Which gdal_polygonize; Which ogr2ogr], ogr2ogr.
    split; [done|]. split; [done|]. split; [done|].
    repeat constructor; by eexists.
  - exists [Which gdal_polygonize], gdal_polygonize.
    split; [done|]. split; [done|]. split; [done|].
    repeat constructor; by eexists.
Qed.

Lemma X13_witness :
  exists evs tool,
    main bare_world (cmd None) = (evs, inl (ToolNotFound tool))
    /\ tool = gdal_polygonize.
Proof.
  destruct (X13_missing_tool bare_world (cmd None)
              {| ns_dem := "dem.tif"; ns_triggers := "export.json";
                 ns_alpha := PyInt 19; ns_output := "output.geojson" |}
              19%Z eq_refl eq_refl (or_introl eq_refl))
    as (evs & tool & Hmain & _ & Hfirst & _).
  exists evs, tool. split; [done | by apply Hfirst].
Defined.

(** X16.  The band that is written has the shape of the DEM and holds 1
    at the cells of the mask that are True and 0, the value declared as
    no-data, at the others: a written cell is valid data exactly when
    some trigger reaches it. *)
Theorem X16_written_band dem tr thresh ts r c :
  (r < height dem)%nat -> (c < width dem)%nat ->
  length (astype_ubyte (process_triggers dem tr thresh ts)) = height dem
  /\ exists v,
      cell (astype_ubyte (process_triggers dem tr thresh ts)) r c = Some v
      /\ (v = 1%Z \/ v = out_nodata)
      /\ (v <> out_nodata
          <-> exists t, t ∈ ts
                /\ cell (trigger_mask dem tr thresh t) r c = Some true).
Proof.
  intros Hr Hc. unfold astype_ubyte.
  rewrite process_triggers_mk, rmap_mk. split; [apply mk_raster_length|].
  eexists. split; [by apply cell_mk|].
  destruct (existsb (fun t => reaches dem tr thresh t r c) ts) eqn:Hex.
  - split; [by left|]. split; [|done]. intros _.
    apply existsb_elem_of in Hex as (t & Ht & Hb). exists t.
    split; [done|]. rewrite cell_trigger_mask by done. by f_equal.
  - split; [by right|]. split; [done|]. intros (t & Ht & Hb).
    rewrite cell_trigger_mask in Hb by done. injection Hb as Hb.
    assert (existsb (fun t => reaches dem tr thresh t r c) ts = true) as Hyes
      by (apply existsb_elem_of; by exists t).
    congruence.
Qed.

Lemma X16_witness :
  (0 < height ridge_dem)%nat /\ (1 < width ridge_dem)%nat
  /\ length (astype_ubyte
               (process_triggers ridge_dem plain_tr (runout_thresh 19) [summit]))
     = height ridge_dem.
Proof.
  split; [simpl; lia|]. split; [simpl; lia|].
  exact (proj1 (X16_written_band ridge_dem plain_tr (runout_thresh 19)
                  [summit] 0 1 ltac:(simpl; lia) ltac:(simpl; lia))).
Defined.

(** ** The loop in the arithmetic of the band *)

Lemma g_loop_mk F dem (pr : projection) thresh ts (m : nat -> nat -> bool) :
  (forall t, t ∈ ts -> is_Some (pr (snd t) (fst t))) ->
  g_loop F dem pr thresh ts (mk_raster (g_height dem) (g_width dem) m)
  = inr (mk_raster (g_height dem) (g_width dem)
           (fun r c =>
              m r c
              || existsb (fun t =>
                            match pr (snd t) (fst t) with
                            | Some p => g_test F dem thresh p (g_sample dem p) r c
                            | None => false
                            end) ts)).
Proof.
  revert m; induction ts as [|t ts IH]; intros m Hpr; simpl.
  - f_equal. apply mk_raster_ext; intros. by rewrite orb_false_r.
  - destruct (Hpr t) as [p Hp]; [by apply elem_of_cons; left|].
    rewrite Hp, g_point_mask_mk, rmap2_mk, IH
      by (intros t' Ht'; apply Hpr; by apply elem_of_cons; right).
    f_equal. apply mk_raster_ext; intros. by rewrite orb_assoc.
Qed.

Lemma g_loop_raises F dem (pr : projection) thresh ts m e :
  g_loop F dem pr thresh ts m = inl e ->
  exists pre t post,
    ts = pre ++ t :: post /\ e = TriggerError t
    /\ pr (snd t) (fst t) = None
    /\ (forall t', t' ∈ pre -> is_Some (pr (snd t') (fst t'))).
Proof.
  revert m; induction ts as [|t ts IH]; intros m; simpl; [done|].
  destruct (pr t.2 t.1) as [p|] eqn:Hp.
  - intros Hl. destruct (IH _ Hl) as (pre & t' & post & -> & -> & Hnone & Hpre).
    exists (t :: pre), t', post. split; [done|]. split; [done|].
    split; [done|]. intros t'' [->|Ht'']%elem_of_cons; [by rewrite Hp|].
    by apply Hpre.
  - intros [= <-]. exists [], t, ts. split; [done|]. split; [done|].
    split; [done|]. by intros t' ?%elem_of_nil.
Qed.

(** X19.  The loop as the script runs it, in the arithmetic of the band
    (lines 147 to 173): when lines 155 to 158 go through for every
    trigger the loop ends, and its mask is True at a cell exactly when
    the test of some trigger, sampled where it is projected, holds there;
    otherwise the loop raises at the first trigger for which they do not,
    and no mask is left. *)
Theorem X19_loop_in_band_arithmetic F dem (pr : projection) thresh triggers :
  ((forall t, t ∈ triggers -> is_Some (pr (snd t) (fst t))) ->
   g_loop F dem pr thresh triggers (full (g_height dem) (g_width dem) false)
   = inr (mk_raster (g_height dem) (g_width dem)
            (fun r c =>
               existsb (fun t =>
                          match pr (snd t) (fst t) with
                          | Some p => g_test F dem thresh p (g_sample dem p) r c
                          | None => false
                          end) triggers)))
  /\ (forall m,
        g_loop F dem pr thresh triggers
               (full (g_height dem) (g_width dem) false) = inr m ->
        forall t, t ∈ triggers -> is_Some (pr (snd t) (fst t)))
  /\ (forall e,
        g_loop F dem pr thresh triggers
               (full (g_height dem) (g_width dem) false) = inl e ->
        exists pre t post,
          triggers = pre ++ t :: post /\ e = TriggerError t
          /\ pr (snd t) (fst t) = None
          /\ (forall t', t' ∈ pre -> is_Some (pr (snd t') (fst t')))).
Proof.
  split; [|split].
  - intros Hpr. by rewrite full_mk, g_loop_mk.
  - intros m. generalize (full (g_height dem) (g_width dem) false).
    induction triggers as [|t ts IH]; intros m0 Hl t' Ht'.
    + by apply elem_of_nil in Ht'.
    + simpl in Hl. destruct (pr t.2 t.1) as [p|] eqn:Hp; [|done].
      apply elem_of_cons in Ht' as [->|Ht']; [by rewrite Hp|].
      by apply (IH _ Hl).
  - intros e. apply g_loop_raises.
Qed.

Lemma X19_witness :
  (forall t, t ∈ [summit]
             -> is_Some ((fun lat lon => Some (plain_tr lat lon)) (snd t) (fst t)))
  /\ g_loop exact64 ridge_int16 (fun lat lon => Some (plain_tr lat lon))
            (Finite (runout_thresh 19)) [summit]
            (full (g_height ridge_int16) (g_width ridge_int16) false)
     = inr (mk_raster (g_height ridge_int16) (g_width ridge_int16)
              (fun r c =>
                 existsb (fun t =>
                            match Some (plain_tr (snd t) (fst t)) with
                            | Some p =>
                                g_test exact64 ridge_int16
                                       (Finite (runout_thresh 19)) p
                                       (g_sample ridge_int16 p) r c
                            | None => false
                            end) [summit])).
Proof.
  assert (forall t, t ∈ [summit]
                    -> is_Some ((fun lat lon => Some (plain_tr lat lon))
                                  (snd t) (fst t))) as Hpr
    by (intros t _; by eexists).
  split; [done|].
  exact (proj1 (X19_loop_in_band_arithmetic exact64 ridge_int16
                  (fun lat lon => Some (plain_tr lat lon))
                  (Finite (runout_thresh 19)) [summit]) Hpr).
Defined.

(** X20.  The accumulation of the mask does not depend on the arithmetic
    of the band: for every band type and every threshold, the mask of a
    trigger list in the arithmetic of the band has the shape of the DEM,
    is that of every permutation of the list, and keeps its True cells
    when triggers are added. *)
Theorem X20_accumulation_in_band_arithmetic F dem tr thresh ts :
  length (g_process_triggers F dem tr thresh ts) = g_height dem
  /\ Forall (fun row => length row = g_width dem)
            (g_process_triggers F dem tr thresh ts)
  /\ (forall ts',
        ts' ≡ₚ ts ->
        g_process_triggers F dem tr thresh ts'
        = g_process_triggers F dem tr thresh ts)
  /\ (forall ts' r c,
        ts ⊆ ts' ->
        cell (g_process_triggers F dem tr thresh ts) r c = Some true ->
        cell (g_process_triggers F dem tr thresh ts') r c = Some true)
  /\ (forall r c,
        cell (g_process_triggers F dem tr thresh ts) r c = Some true
        <-> exists t, t ∈ ts
              /\ cell (g_trigger_mask F dem tr thresh t) r c = Some true).
Proof.
  split; [rewrite g_process_triggers_mk; apply mk_raster_length|].
  split; [rewrite g_process_triggers_mk; apply mk_raster_rows|].
  split; [|split].
  - intros ts' Hp. rewrite !g_process_triggers_mk.
    apply mk_raster_ext; intros r c _ _. by apply existsb_perm.
  - intros ts' r c Hsub. rewrite !g_process_triggers_mk. intros Hv.
    apply cell_in_range in Hv as (Hr & Hc & Hb).
    rewrite cell_mk by done. f_equal.
    symmetry in Hb. apply existsb_elem_of in Hb as (t & Ht & Hb).
    apply existsb_elem_of. exists t. split; [by apply Hsub | done].
  - intros r c. rewrite g_process_triggers_mk. split.
    + intros Hv. apply cell_in_range in Hv as (Hr & Hc & Hb).
      symmetry in Hb. apply existsb_elem_of in Hb as (t & Ht & Hb).
      exists t. split; [done|].
      rewrite cell_g_trigger_mask by done. by f_equal.
    + intros (t & Ht & Hb). rewrite g_trigger_mask_mk in Hb.
      apply cell_in_range in Hb as (Hr & Hc & Hb).
      rewrite cell_mk by done. f_equal.
      apply existsb_elem_of. by exists t.
Qed.

Lemma X20_witness :
  [valley; summit] ≡ₚ [summit; valley]
  /\ g_process_triggers exact64 ridge_int16 plain_tr
       (Finite (runout_thresh 19)) [valley; summit]
     = g_process_triggers exact64 ridge_int16 plain_tr
         (Finite (runout_thresh 19)) [summit; valley].
Proof.
  assert ([valley; summit] ≡ₚ [summit; valley]) as Hp by apply perm_swap.
  split; [done|].
  exact (proj1 (proj2 (proj2
    (X20_accumulation_in_band_arithmetic exact64 ridge_int16 plain_tr
       (Finite (runout_thresh 19)) [summit; valley])))
    [valley; summit] Hp).
Defined.
